(** * run-gui.py: the progress instrumentation of the diffeomorph GUI

    A shallow embedding of [src/run-gui.py]: the class [ProgressUpdater]
    (the stage instrumentor), the rebinding of the pipeline's class
    attributes by the "Run" handler (install and teardown) and the handler's
    [try / except / else / finally] statement.

    What the program only uses (the GUI library, the pipeline module
    [diffeomorphic], the builtins [int] and [print]) is described by the
    class [External] below or written out where Python fixes it. *)

From stdpp Require Import base option list strings pretty functions gmap fin_maps.
From Stdlib Require Import ZArith Lia Ascii.

Local Open Scope Z_scope.

(** ** Python values, exceptions, keyword arguments *)

(** Values that travel through an instrumented call as arguments or results.
    [VFile] is an open, writable stream; [VObj] is any other object. *)
Inductive pyval :=
| VNone
| VBool (b : bool)
| VInt (z : Z)
| VStr (s : string)
| VFile (n : nat)
| VObj (n : nat).

(** The exceptions that matter to the program; [OtherError] stands for
    any other class, none of them a subclass of those named. *)
Inductive exn :=
| FileNotFoundError
| TypeError
| AttributeError
| KeyError
| ValueError
| ZeroDivisionError
| IndexError
| OtherError (n : nat).

Global Instance pyval_eq_dec : EqDecision pyval.
Proof. solve_decision. Defined.
Global Instance exn_eq_dec : EqDecision exn.
Proof. solve_decision. Defined.

(** [**kwargs]: keyword names with their values, in call order. *)
Definition kwargs := list (string * pyval).

(** How a call ends: [return v] or [raise e]. *)
Inductive result (A : Type) :=
| Ok (a : A)
| Raise (e : exn).
Arguments Ok {A} a.
Arguments Raise {A} e.

(** ** The pipeline module's class attributes *)

(** The five attributes of [diffeo.DiffeoImage] and [diffeo.DiffeoImageDir]
    that the handler reads or assigns. *)
Inductive slot :=
| DiffeoImage_init
| DiffeoImage_getdiffeo
| DiffeoImage_interpolate_image
| DiffeoImageDir_save
| DiffeoImageDir_init.

Global Instance slot_eq_dec : EqDecision slot.
Proof. solve_decision. Defined.

(** ** ProgressUpdater objects and callables *)

(** The attributes of a [ProgressUpdater] object that [__init__] assigns
    once and nothing assigns again. [window] is the one global window and
    is not repeated here; [func] is carried by the reference (see
    [callable]); the mutable [file_count] lives in the state, keyed by the
    object. *)
Record attrs := Attrs {
  pbar_key : string;
  label_key : string;
  label : string;
  increment_value : Z;
  runs_each_file : bool
}.

(** What a class attribute can hold, and what can be called.
    - [StageFunction f]: the plain function the pipeline module defined as [f];
    - [Updater o self func]: the [ProgressUpdater] object with identity
      [o]; [func] is its [self.func], which is also its [__wrapped__]
      (set by [functools.update_wrapper(self, func)]);
    - [Partial c x]: [functools.partial(c, x)]; the only ones the program
      builds are [functools.partial(self.__call__, instance)] in
      [__get__], and calling the bound method [self.__call__] is calling
      the object. *)
Inductive callable :=
| StageFunction (f : slot)
| Updater (o : nat) (self : attrs) (func : callable)
| Partial (c : callable) (x : pyval).

Global Instance attrs_eq_dec : EqDecision attrs.
Proof. solve_decision. Defined.
Global Instance callable_eq_dec : EqDecision callable.
Proof. solve_decision. Defined.

(** ** The window *)

(** The state of a keyed element that [update] can change. *)
Record Element := {
  value : string;
  visible : bool;
  current_count : Z;
  text_color : string
}.

(** The keyword arguments of one [element.update(...)] call; [None] is an
    argument left out. *)
Record Update := {
  set_value : option string;
  set_visible : option bool;
  set_current_count : option Z;
  set_text_color : option string
}.

(** The element after [update]: the arguments given replace what the
    element had. *)
Definition apply_update (u : Update) (e : Element) : Element :=
  {| value := default (value e) (set_value u);
     visible := default (visible e) (set_visible u);
     current_count := default (current_count e) (set_current_count u);
     text_color := default (text_color e) (set_text_color u) |}.

(** The argument lists the program passes to [update]:
    [value=], [value=, text_color=], [value=, visible=], [visible=],
    [current_count=] and [current_count=, visible=]. *)
Definition upd_value (s : string) : Update :=
  {| set_value := Some s; set_visible := None;
     set_current_count := None; set_text_color := None |}.
Definition upd_value_color (s c : string) : Update :=
  {| set_value := Some s; set_visible := None;
     set_current_count := None; set_text_color := Some c |}.
Definition upd_value_visible (s : string) (b : bool) : Update :=
  {| set_value := Some s; set_visible := Some b;
     set_current_count := None; set_text_color := None |}.
Definition upd_visible (b : bool) : Update :=
  {| set_value := None; set_visible := Some b;
     set_current_count := None; set_text_color := None |}.
Definition upd_count (n : Z) : Update :=
  {| set_value := None; set_visible := None;
     set_current_count := Some n; set_text_color := None |}.
Definition upd_count_visible (n : Z) (b : bool) : Update :=
  {| set_value := None; set_visible := Some b;
     set_current_count := Some n; set_text_color := None |}.

Global Instance Update_eq_dec : EqDecision Update.
Proof. solve_decision. Defined.

(** ** Observable effects, in program order *)

Inductive effect :=
| EUpdate (key : string) (u : Update)   (* an element's update(...) ran *)
| EKeyError (key : string)              (* window[key]: no such element *)
| ERefresh                              (* window.refresh() *)
| EPrint (file : option nat)            (* print wrote to stdout or a file *)
| ESleep (seconds : Z)                  (* time.sleep *)
| ERunDiffeomorph                       (* diffeo.run_diffeomorph entered *)
| ECall (f : slot) (args : list pyval) (kw : kwargs)
                                        (* a pipeline function's body entered *)
| EReset.                               (* ProgressUpdater.reset() *)

Global Instance effect_eq_dec : EqDecision effect.
Proof. solve_decision. Defined.

(** ** Program state *)

Record State := {
  current_progress : Z;            (* ProgressUpdater.current_progress *)
  file_count : gmap nat Z;         (* o.file_count, where it is assigned *)
  allocated : nat;                 (* ProgressUpdater objects built so far *)
  class_attr : slot → callable;    (* the classes' attribute tables *)
  window : gmap string Element;    (* keyed elements of the window *)
  trace : list effect              (* effects so far, oldest first *)
}.

(** Assignments to one component of the state; [emit] appends an effect
    to the trace. *)
Definition set_current_progress (n : Z) (σ : State) : State :=
  {| current_progress := n; file_count := file_count σ;
     allocated := allocated σ; class_attr := class_attr σ;
     window := window σ; trace := trace σ |}.
Definition set_file_count (m : gmap nat Z) (σ : State) : State :=
  {| current_progress := current_progress σ; file_count := m;
     allocated := allocated σ; class_attr := class_attr σ;
     window := window σ; trace := trace σ |}.
Definition set_allocated (n : nat) (σ : State) : State :=
  {| current_progress := current_progress σ; file_count := file_count σ;
     allocated := n; class_attr := class_attr σ;
     window := window σ; trace := trace σ |}.
Definition set_class_attr (t : slot → callable) (σ : State) : State :=
  {| current_progress := current_progress σ; file_count := file_count σ;
     allocated := allocated σ; class_attr := t;
     window := window σ; trace := trace σ |}.
Definition set_window (w : gmap string Element) (σ : State) : State :=
  {| current_progress := current_progress σ; file_count := file_count σ;
     allocated := allocated σ; class_attr := class_attr σ;
     window := w; trace := trace σ |}.
Definition emit (e : effect) (σ : State) : State :=
  {| current_progress := current_progress σ; file_count := file_count σ;
     allocated := allocated σ; class_attr := class_attr σ;
     window := window σ; trace := trace σ ++ [e] |}.

(** ** Statements: state passing with exceptions *)

(** A statement or expression: from a state to how it ends, with a value
    or an exception, and the state it leaves. *)
Definition M (A : Type) : Type := State → result A * State.

Definition ret {A} (a : A) : M A := λ σ, (Ok a, σ).
Definition raise {A} (e : exn) : M A := λ σ, (Raise e, σ).
Definition bind {A B} (m : M A) (k : A → M B) : M B :=
  λ σ, match m σ with
       | (Ok a, σ') => k a σ'
       | (Raise e, σ') => (Raise e, σ')
       end.
Definition lift {A} (r : result A) : M A := λ σ, (r, σ).
Definition modify (f : State → State) : M unit := λ σ, (Ok (), f σ).
Definition gets {A} (f : State → A) : M A := λ σ, (Ok (f σ), σ).

Notation "'do' x <- m ; k" := (bind m (λ x, k))
  (at level 10, x name, m at level 100, k at level 200,
   format "'[v' 'do'  x  <-  m ; '/' k ']'").
Notation "m ;; k" := (bind m (λ _, k))
  (at level 100, k at level 200, right associativity).

(** ** What the program uses but does not define *)

(** What [window[key]] does when no element has the key belongs to the
    GUI library: raise [KeyError], hand back a placeholder whose [update]
    changes nothing, or fall back on another key it considers closest. *)
Inductive missing_key :=
| RaiseKeyError
| ErrorElement
| ClosestKey (k : string).

(** A run of the pipeline entry point, seen from the GUI: it ends
    ([Done]), or it looks up attribute [s] on [instance] and calls it
    ([Invoke], both [instance.s(args)] and the [__init__] call of an
    instantiation) and goes on according to how that call ended. *)
Inductive pipeline :=
| Done (r : result pyval)
| Invoke (s : slot) (instance : pyval) (args : list pyval) (kw : kwargs)
         (k : result pyval → pipeline).

Class External := {
  (** the builtin [int] on a string; [None] is [ValueError] *)
  int : string → option Z;
  (** [window[key]] for a key no element has *)
  find_element_missing : string → missing_key;
  (** how the body of the pipeline module's function [f] ends on the
      given arguments when entered after [now] effects (the same call may
      end differently at another time); it touches neither the window
      nor [ProgressUpdater] *)
  stage : slot → list pyval → kwargs → nat → result pyval;
  (** [diffeo.run_diffeomorph(inputs, output_dir, maxdistortion, nsteps,
      save_steps, upscale)] *)
  run_diffeomorph :
    list string → string → Z → Z → bool → bool → pipeline;
  (** [floor(a / b)] for a dividend that is not a stage weight (below 0
      or above 100) and a divisor other than 0: the floor of the float
      nearest to the quotient, which is not the quotient's own floor
      once the operands need more than a float's 53 bits, or the
      exception of a quotient too large for a float *)
  float_floor : Z → Z → result Z
}.

(** ** The window's operations *)

Section Window.
Context `{!External}.

(** [window[key].update(...)] *)
Definition window_update (key : string) (u : Update) : M unit :=
  λ σ,
    match window σ !! key with
    | Some e =>
        (Ok (), emit (EUpdate key u)
                  (set_window (<[key := apply_update u e]> (window σ)) σ))
    | None =>
        let σ := emit (EKeyError key) σ in
        match find_element_missing key with
        | RaiseKeyError => (Raise KeyError, σ)
        | ErrorElement => (Ok (), σ)
        | ClosestKey k =>
            match window σ !! k with
            | Some e =>
                (Ok (), emit (EUpdate k u)
                          (set_window (<[k := apply_update u e]> (window σ)) σ))
            | None => (Ok (), σ)
            end
        end
    end.

(** [window.refresh()] *)
Definition window_refresh : M unit := modify (emit ERefresh).

End Window.

(** ** The builtin [print] *)

(** The keyword parameters of [print]. *)
Definition print_keywords : list string := ["sep"; "end"; "file"; "flush"].

(** [v is None or isinstance(v, str)] *)
Definition none_or_str (v : pyval) : bool :=
  match v with VNone | VStr _ => true | _ => false end.

(** The value passed for keyword [name], if any. *)
Fixpoint kw_get (name : string) (kw : kwargs) : option pyval :=
  match kw with
  | [] => None
  | (k, v) :: kw' => if decide (k = name) then Some v else kw_get name kw'
  end.

(** The keyword is one of [print]'s. *)
Definition print_accepts_keyword (p : string * pyval) : bool :=
  bool_decide (p.1 ∈ print_keywords).

(** If the keyword is [sep] or [end], its value is [None] or a string. *)
Definition print_accepts_separator (p : string * pyval) : bool :=
  implb (bool_decide (p.1 ∈ ["sep"; "end"])) (none_or_str p.2).

(** Where [print] with keywords [kw] writes: an unknown keyword is a
    [TypeError], so is a [sep] or [end] that is neither [None] nor a
    string; [file] must be [None] (standard output, [Ok None]) or a
    stream. *)
Definition print_target (kw : kwargs) : result (option nat) :=
  if negb (forallb print_accepts_keyword kw) then Raise TypeError
  else if negb (forallb print_accepts_separator kw) then Raise TypeError
  else match kw_get "file" kw with
       | None | Some VNone => Ok None
       | Some (VFile n) => Ok (Some n)
       | Some _ => Raise AttributeError
       end.

(** [print] on [*args] and [**kw]. *)
Definition print (args : list pyval) (kw : kwargs) : M unit :=
  match print_target kw with
  | Ok file => modify (emit (EPrint file))
  | Raise e => raise e
  end.

(** ** class ProgressUpdater *)

Module ProgressUpdater.
Section Methods.
Context `{!External}.

(** [ProgressUpdater.reset()] *)
Definition reset : M unit :=
  modify (λ σ, emit EReset (set_current_progress 0 σ)).

(** The floor of the float nearest to [a / b], for a stage weight [a]
    (0 to 100, in the program 5, 25 or 65) and [b] other than 0. It is
    the floor of the exact quotient, [a / b] on [Z] (for [b] of at least
    1 see [floor_div_margin]), except where the quotient is negative and
    so small that the nearest float is the negative zero, whose floor is
    0: a quotient of magnitude at most 2^-1075, the middle between 0 and
    the smallest float. *)
Definition floor_quotient (a b : Z) : Z :=
  if (b <? 0) && (0 <? a) && (a * 2 ^ 1075 <=? - b) then 0 else a / b.

(** [floor(a / b)] on integers: Python divides as floats and [floor]
    gives back an integer. Division by 0 raises; for a stage weight the
    result is [floor_quotient]; for any other dividend it is what the
    float arithmetic gives, [float_floor]. *)
Definition floor_div (a b : Z) : M Z :=
  if decide (b = 0) then raise ZeroDivisionError
  else if decide (0 ≤ a ≤ 100) then ret (floor_quotient a b)
  else lift (float_floor a b).

(** The constructor call [ProgressUpdater(func, pbar_key, label_key,
    window, stage_progress, num_files, label, runs_each_file)]: a new
    object [o], then [__init__] on it. [functools.update_wrapper(self,
    func)] makes [func] the object's [__wrapped__]; the per-batch branch
    returns before [file_count] is assigned. *)
Definition __init__ (func : callable) (pbar_key label_key : string)
    (stage_progress num_files : Z) (label : string)
    (runs_each_file : bool) : M callable :=
  do o <- gets allocated;
  modify (set_allocated (S o)) ;;
  if negb runs_each_file then
    ret (Updater o (Attrs pbar_key label_key label stage_progress false) func)
  else
    modify (λ σ, set_file_count (<[o := 1]> (file_count σ)) σ) ;;
    do increment <- floor_div stage_progress num_files;
    ret (Updater o (Attrs pbar_key label_key label increment true) func).

(** Reading [self.file_count]: an [AttributeError] when it was never
    assigned on the object. *)
Definition get_file_count (o : nat) : M Z :=
  λ σ, match file_count σ !! o with
       | Some n => (Ok n, σ)
       | None => (Raise AttributeError, σ)
       end.

(** [__call__(self, *args, **kwargs)] on object [o]; [call_func] is the
    call of [self.func]. *)
Definition __call__ (o : nat) (self : attrs)
    (call_func : list pyval → kwargs → M pyval)
    (args : list pyval) (kw : kwargs) : M pyval :=
  modify (λ σ, set_current_progress
                 (current_progress σ + increment_value self) σ) ;;
  do current <- gets current_progress;
  window_update (pbar_key self) (upd_count current) ;;
  do extended_label <-
    (if runs_each_file self then
       do n <- get_file_count o;
       modify (λ σ, set_file_count (<[o := n + 1]> (file_count σ)) σ) ;;
       ret ("File #" +:+ pretty n +:+ ": " +:+ label self)
     else ret (label self));
  window_update (label_key self) (upd_value extended_label) ;;
  window_refresh ;;
  print args kw ;;
  call_func args kw.

(** [__get__(self, instance, owner)]:
    [functools.partial(self.__call__, instance)] *)
Definition __get__ (self : callable) (instance : pyval) : callable :=
  Partial self instance.

End Methods.
End ProgressUpdater.

(** ** Calling, attribute lookup, [inspect.unwrap] *)

Section Calls.
Context `{!External}.

(** The call of [c] on [*args] and [**kw] *)
Fixpoint call (c : callable) (args : list pyval) (kw : kwargs) : M pyval :=
  match c with
  | StageFunction f =>
      do now <- gets (λ σ, length (trace σ));
      modify (emit (ECall f args kw)) ;;
      lift (stage f args kw now)
  | Updater o self func =>
      ProgressUpdater.__call__ o self (call func) args kw
  | Partial c' x => call c' (x :: args) kw
  end.

(** [Class.name] where the class's table holds [c]: a [ProgressUpdater]
    object defines [__get__], so the lookup returns
    [c.__get__(None, Class)]; a function or a partial object comes back
    as it is. *)
Definition getattr_class (c : callable) : callable :=
  match c with
  | Updater _ _ _ => ProgressUpdater.__get__ c VNone
  | _ => c
  end.

(** The method call [instance.name(...)] where the class's table holds [c]:
    a function is bound to [instance], a [ProgressUpdater] object goes
    through [__get__], a partial object is called as it is (it binds
    nothing up to Python 3.13; the handler never lets the pipeline run
    with a bare partial object in a slot). *)
Definition call_method (c : callable) (instance : pyval)
    (args : list pyval) (kw : kwargs) : M pyval :=
  match c with
  | StageFunction _ => call c (instance :: args) kw
  | Updater _ _ _ => call (ProgressUpdater.__get__ c instance) args kw
  | Partial _ _ => call c args kw
  end.

(** [inspect.unwrap]: follow [__wrapped__] while there is one. A
    [ProgressUpdater] has it from [functools.update_wrapper]; the
    pipeline's functions are taken to be plain functions, without it; a
    partial object has no such attribute. *)
Fixpoint unwrap (c : callable) : callable :=
  match c with
  | Updater _ _ func => unwrap func
  | _ => c
  end.

(** The pipeline entry point running against the current class tables. *)
Fixpoint run_pipeline (p : pipeline) : M pyval :=
  match p with
  | Done r => lift r
  | Invoke s instance args kw k =>
      λ σ, let (r, σ') := call_method (class_attr σ s) instance args kw σ in
           run_pipeline (k r) σ'
  end.

End Calls.

(** ** The event loop's "Run" branch *)

(** The dictionary [window.read()] returns, at the keys the program reads. *)
Record Values := {
  INPUTS : string;
  OUTPUT : string;
  MAXDISTORTION : string;
  NSTEPS : string;
  SAVE_STEPS : bool;
  NO_UPSCALING : bool
}.

(** [s.split(sep)] for a one-character separator. *)
Fixpoint split (sep : ascii) (s : string) : list string :=
  match s with
  | EmptyString => [EmptyString]
  | String c s' =>
      if decide (c = sep) then EmptyString :: split sep s'
      else match split sep s' with
           | w :: ws => String c w :: ws
           | [] => [String c EmptyString]
           end
  end.

(** [try: body / except E: handler / else: orelse] *)
Definition try_except_else {A} (body : M A) (E : exn)
    (handler orelse : M unit) : M unit :=
  λ σ, match body σ with
       | (Ok _, σ') => orelse σ'
       | (Raise e, σ') => if decide (e = E) then handler σ' else (Raise e, σ')
       end.

(** [try: body / finally: finalbody] *)
Definition try_finally {A} (body : M A) (finalbody : M unit) : M A :=
  λ σ, let (r, σ') := body σ in
       match finalbody σ' with
       | (Ok _, σ'') => (r, σ'')
       | (Raise e, σ'') => (Raise e, σ'')
       end.

(** A [print] of positional arguments only: it writes to standard output. *)
Definition print_debug : M unit := print [] [].

(** [sleep(seconds)] *)
Definition sleep (seconds : Z) : M unit := modify (emit (ESleep seconds)).

(** [Class.name = c] *)
Definition setattr (s : slot) (c : callable) : M unit :=
  modify (λ σ, set_class_attr (<[s := c]> (class_attr σ)) σ).

Section Handler.
Context `{!External}.

(** [int(s)] *)
Definition int_of (s : string) : M Z :=
  match int s with
  | Some z => ret z
  | None => raise ValueError
  end.

(** [Class.name = ProgressUpdater(Class.name, "-PBAR-", "-PBARLABEL-",
    window, stage_progress, num_files, label, runs_each_file)] *)
Definition wrap (s : slot) (stage_progress num_files : Z) (label : string)
    (runs_each_file : bool) : M unit :=
  do func <- gets (λ σ, getattr_class (class_attr σ s));
  do updater <- ProgressUpdater.__init__ func "-PBAR-" "-PBARLABEL-"
                  stage_progress num_files label runs_each_file;
  setattr s updater.

(** "Wrap functions that should update progress bar when run" *)
Definition install (num_files : Z) : M unit :=
  wrap DiffeoImage_init 5 num_files "Initializing image..." true ;;
  wrap DiffeoImage_getdiffeo 25 num_files
    "Generating diffeomorphic flow field..." true ;;
  wrap DiffeoImage_interpolate_image 65 num_files
    "Interpolating image (this may take a while; do not close window!)..."
    true ;;
  wrap DiffeoImageDir_save 5 num_files
    "Saving files (do not close window!)..." false.

(** [Class.name = unwrap(Class'.name')] *)
Definition restore (s from : slot) : M unit :=
  do current <- gets (λ σ, getattr_class (class_attr σ from));
  setattr s (unwrap current).

(** The [finally] block: "Cleanup for next run". *)
Definition teardown : M unit :=
  window_update "-PBAR-" (upd_count_visible 0 false) ;;
  window_update "-PBARLABEL-" (upd_value_visible "" false) ;;
  restore DiffeoImage_init DiffeoImageDir_init ;;
  restore DiffeoImage_getdiffeo DiffeoImage_getdiffeo ;;
  restore DiffeoImage_interpolate_image DiffeoImage_interpolate_image ;;
  restore DiffeoImageDir_save DiffeoImageDir_save ;;
  ProgressUpdater.reset.

(** The [try] block. *)
Definition try_body (inputs : list string) (output_dir : string)
    (maxdistortion nsteps : Z) (save_steps upscale : bool) : M pyval :=
  print_debug ;;
  modify (emit ERunDiffeomorph) ;;
  run_pipeline
    (run_diffeomorph inputs output_dir maxdistortion nsteps save_steps upscale).

(** The [except FileNotFoundError] block. *)
Definition on_file_not_found : M unit :=
  window_update "-INPUTS-" (upd_value "") ;;
  window_update "-OUTPUTS-" (upd_value "") ;;
  window_update "-ERROR-" (upd_value "ERROR: One or more files not found").

(** The [else] block. *)
Definition on_success : M unit :=
  window_update "-PBAR-" (upd_count 100) ;;
  window_update "-PBARLABEL-" (upd_value "Diffeomorphing complete!") ;;
  window_refresh ;;
  sleep 2.

(** [try / except FileNotFoundError / else], without the [finally]. *)
Definition attempt (inputs : list string) (output_dir : string)
    (maxdistortion nsteps : Z) (save_steps upscale : bool) : M unit :=
  try_except_else
    (try_body inputs output_dir maxdistortion nsteps save_steps upscale)
    FileNotFoundError on_file_not_found on_success.

(** The three messages of the checks before a run. *)
Definition error_both : string :=
  "ERROR: One or more files/folders must be supplied as an input; exactly one folder must be supplied as an output".
Definition error_inputs : string :=
  "ERROR: One or more files/folders must be supplied as an input".
Definition error_output : string :=
  "ERROR: Exactly one folder must be supplied as an output".

(** From "Clear error" to the last of the four wraps: the values the
    [try] block passes on, and [num_files] used on the way. *)
Definition prepare (values : Values)
    : M (list string * string * Z * Z * bool * bool) :=
  window_update "-ERROR-" (upd_value "") ;;
  window_update "-PBAR-" (upd_count_visible 0 true) ;;
  window_update "-PBARLABEL-" (upd_visible true) ;;
  let inputs := split ";"%char (INPUTS values) in
  let output_dir := OUTPUT values in
  do maxdistortion <- int_of (MAXDISTORTION values);
  do nsteps <- int_of (NSTEPS values);
  let save_steps := SAVE_STEPS values in
  let upscale := negb (NO_UPSCALING values) in
  let num_files := Z.of_nat (length inputs) in
  install num_files ;;
  ret (inputs, output_dir, maxdistortion, nsteps, save_steps, upscale).

(** [try / except FileNotFoundError / else] on what [prepare] returned. *)
Definition attempt_with
    (a : list string * string * Z * Z * bool * bool) : M unit :=
  let '(inputs, output_dir, maxdistortion, nsteps, save_steps, upscale) := a in
  attempt inputs output_dir maxdistortion nsteps save_steps upscale.

(** The body of [if event == "Run":]; each [continue] ends it. *)
Definition on_run (values : Values) : M unit :=
  print_debug ;;
  if bool_decide (INPUTS values = "") && bool_decide (OUTPUT values = "")
  then window_update "-ERROR-" (upd_value_color error_both "red")
  else if bool_decide (INPUTS values = "")
  then window_update "-ERROR-" (upd_value_color error_inputs "red")
  else if bool_decide (OUTPUT values = "")
  then window_update "-ERROR-" (upd_value_color error_output "red")
  else
    do a <- prepare values;
    try_finally (attempt_with a) teardown.

End Handler.

(** ** The window as the layout declares it, and the state at start-up *)

(** An element showing [text], visible or not. *)
Definition element (text : string) (shown : bool) : Element :=
  {| value := text; visible := shown; current_count := 0; text_color := "" |}.

(** The elements to which the layout gives a key of its own. The buttons
    (keyed by their texts, [Run] and [Browse]) and the texts without a
    key are left out; the program never addresses them, and none of them
    has the key ["-OUTPUTS-"]. *)
Definition layout : gmap string Element :=
  list_to_map
    [("-INPUTS-", element "" true);
     ("-OUTPUT-", element "" true);
     ("-MAXDISTORTION-", element "80" true);
     ("-NSTEPS-", element "20" true);
     ("-SAVE_STEPS-", element "" true);
     ("-NO_UPSCALING-", element "" true);
     ("-PBARLABEL-", element "" false);
     ("-PBAR-", element "" false);
     ("-ERROR-", element "" true)].

(** Start-up: accumulator 0, no ProgressUpdater yet, every class
    attribute holding the function the pipeline module defined for it. *)
Definition initial_state : State :=
  {| current_progress := 0; file_count := ∅; allocated := 0;
     class_attr := StageFunction; window := layout; trace := [] |}.

(** ** A pipeline after the specification, to run the handler against *)

(** The value of an ASCII decimal digit. *)
Definition digit (c : ascii) : option Z :=
  let n := Z.of_N (N_of_ascii c) in
  if bool_decide (48 ≤ n ≤ 57) then Some (n - 48) else None.

(** The number written by the digits of [s], after the digits that gave
    [acc]. *)
Fixpoint decimal_from (acc : Z) (s : string) : option Z :=
  match s with
  | EmptyString => Some acc
  | String c s' =>
      match digit c with
      | Some d => decimal_from (10 * acc + d) s'
      | None => None
      end
  end.

(** [int] on a string of ASCII digits; anything else is refused. *)
Definition decimal (s : string) : option Z :=
  match s with
  | EmptyString => None
  | _ => decimal_from 0 s
  end.

(** Go on with [next] after a call that returned, end with its exception
    after one that raised. *)
Definition propagate (r : result pyval) (next : pipeline) : pipeline :=
  match r with
  | Ok _ => next
  | Raise e => Done (Raise e)
  end.

(** Modelled from the spec: the per-item part of the pipeline entry point
    of module [diffeomorphic], whose code is not among the sources. The
    specification (external interfaces) has it invoke three stage slots
    once per item; here item number [n] is object [VObj n], and a failure
    of a stage ends the pipeline with that failure. *)
Fixpoint spec_items (inputs : list string) (n : nat) (rest : pipeline)
    : pipeline :=
  match inputs with
  | [] => rest
  | file :: inputs' =>
      Invoke DiffeoImage_init (VObj n) [VStr file] [] (λ r,
        propagate r
          (Invoke DiffeoImage_getdiffeo (VObj n) [] [] (λ r,
             propagate r
               (Invoke DiffeoImage_interpolate_image (VObj n) [] [] (λ r,
                  propagate r (spec_items inputs' (S n) rest))))))
  end.

(** Modelled from the spec: the pipeline entry point of module
    [diffeomorphic]: the per-item stages of every input, then the batch
    stage [save] once on the directory object [VObj 0]. *)
Definition spec_run_diffeomorph (inputs : list string) (output_dir : string)
    (maxdistortion nsteps : Z) (save_steps upscale : bool) : pipeline :=
  spec_items inputs 1
    (Invoke DiffeoImageDir_save (VObj 0) [] [] (λ r, propagate r (Done (Ok VNone)))).

(** Modelled from the spec: the stage functions of module [diffeomorphic].
    The specification says the pipeline "fails with a missing-file error
    class when any input path does not exist"; here the function that
    receives a path that is not [present] raises it. *)
Definition spec_stage (present : string → bool) (f : slot)
    (args : list pyval) (kw : kwargs) (now : nat) : result pyval :=
  if forallb (λ a, match a with VStr file => present file | _ => true end) args
  then Ok VNone
  else Raise FileNotFoundError.

(** Modelled from the spec: the collaborators the specification
    describes, with [int] on decimal digits and the GUI library's
    treatment of unknown keys left open. The program divides stage
    weights only, so no run asks this world for [float_floor]. *)
Definition spec_world (present : string → bool)
    (missing : string → missing_key) : External :=
  {| int := decimal;
     find_element_missing := missing;
     stage := spec_stage present;
     run_diffeomorph := spec_run_diffeomorph;
     float_floor := λ a b, Ok (a / b) |}.

(** ** The event loop *)

(** What [window.read()] returns as [event]. *)
Inductive event :=
| WIN_CLOSED
| Key (k : string).

Global Instance event_eq_dec : EqDecision event.
Proof. solve_decision. Defined.

(** [s[-1]], if there is one. *)
Fixpoint last_char (s : string) : option ascii :=
  match s with
  | EmptyString => None
  | String c EmptyString => Some c
  | String _ s' => last_char s'
  end.

(** [s[:-1]] *)
Fixpoint drop_last (s : string) : string :=
  match s with
  | EmptyString => EmptyString
  | String c EmptyString => EmptyString
  | String c s' => String c (drop_last s')
  end.

(** [c in "0123456789"] for a one-character string. *)
Definition is_digit (c : ascii) : bool :=
  bool_decide (c ∈ String.list_ascii_of_string "0123456789").

(** The fields as the user left them when [window.read()] returns. *)
Definition typed (values : Values) (w : gmap string Element)
    : gmap string Element :=
  alter (apply_update (upd_value (INPUTS values))) "-INPUTS-"
    (alter (apply_update (upd_value (OUTPUT values))) "-OUTPUT-"
       (alter (apply_update (upd_value (MAXDISTORTION values))) "-MAXDISTORTION-"
          (alter (apply_update (upd_value (NSTEPS values))) "-NSTEPS-" w))).

Section Loop.
Context `{!External}.

(** "Only allow digits in maxdistortion and nsteps input fields":
    [if text[-1] not in "0123456789": window[key].update(text[:-1])] *)
Definition only_digits (key text : string) : M unit :=
  match last_char text with
  | None => raise IndexError
  | Some c =>
      if is_digit c then ret ()
      else window_update key (upd_value (drop_last text))
  end.

(** One pass through the body of [while True:] after the
    [WIN_CLOSED] test. *)
Definition loop_body (ev : event) (values : Values) : M unit :=
  (if decide (ev = Key "-MAXDISTORTION-")
   then only_digits "-MAXDISTORTION-" (MAXDISTORTION values) else ret ()) ;;
  (if decide (ev = Key "-NSTEPS-")
   then only_digits "-NSTEPS-" (NSTEPS values) else ret ()) ;;
  (if decide (ev = Key "Run") then on_run values else ret ()).

(** The loop fed with what successive [window.read()] calls return; it
    ends at [WIN_CLOSED], at an exception nothing catches, or waiting
    for the next event. *)
Fixpoint event_loop (reads : list (event * Values)) : M unit :=
  match reads with
  | [] => ret ()
  | (ev, values) :: rest =>
      modify (λ σ, set_window (typed values (window σ)) σ) ;;
      match ev with
      | WIN_CLOSED => ret ()
      | _ => loop_body ev values ;; event_loop rest
      end
  end.

End Loop.

(** * Vocabulary of the properties *)

(** ** Callables *)

(** A pipeline function, possibly behind partial objects: a callable that
    reaches no ProgressUpdater. *)
Fixpoint plain (c : callable) : bool :=
  match c with
  | StageFunction _ => true
  | Updater _ _ _ => false
  | Partial c' _ => plain c'
  end.

(** The identities of the ProgressUpdater objects a call of [c] goes
    through. *)
Fixpoint ids (c : callable) : list nat :=
  match c with
  | StageFunction _ => []
  | Updater o _ func => o :: ids func
  | Partial c' _ => ids c'
  end.

(** What a partial object ends up calling. *)
Fixpoint callee (c : callable) : callable :=
  match c with
  | Partial c' _ => callee c'
  | _ => c
  end.

(** The number of constructors of a callable. *)
Fixpoint callable_size (c : callable) : nat :=
  match c with
  | StageFunction _ => 1
  | Updater _ _ func => S (callable_size func)
  | Partial c' _ => S (callable_size c')
  end.

(** ** Kinds of effects *)

(** Effects on the window and on standard output. *)
Definition ui_effect (e : effect) : bool :=
  match e with
  | EUpdate _ _ | EKeyError _ | ERefresh | EPrint _ | ESleep _ => true
  | ERunDiffeomorph | ECall _ _ _ | EReset => false
  end.

(** Effects that a call of a stage slot can have: all but the reset and
    the entry into the pipeline. *)
Definition stage_effect (e : effect) : bool :=
  match e with
  | EReset | ERunDiffeomorph => false
  | _ => true
  end.

(** Any effect but the reset. *)
Definition not_reset (e : effect) : bool :=
  match e with
  | EReset => false
  | _ => true
  end.

(** The entry into a pipeline function's body. *)
Definition is_call (e : effect) : bool :=
  match e with
  | ECall _ _ _ => true
  | _ => false
  end.

(** How often [ProgressUpdater.reset()] ran. *)
Definition resets (t : list effect) : nat :=
  length (filter (λ e, e = EReset) t).

(** The texts that updates of element [key] displayed, oldest first. *)
Definition labels_shown (key : string) (t : list effect) : list string :=
  omap (λ e, match e with
             | EUpdate k u => if decide (k = key) then set_value u else None
             | _ => None
             end) t.

(** The counts that updates of element [key] displayed, oldest first. *)
Definition counts_shown (key : string) (t : list effect) : list Z :=
  omap (λ e, match e with
             | EUpdate k u =>
                 if decide (k = key) then set_current_count u else None
             | _ => None
             end) t.

(** ** Steps between states *)

(** From [σ] to [σ']: no object was built, no class attribute rebound, no
    element added to or removed from the window, and the effects added
    all satisfy [P]. *)
Record ext_step (P : effect → bool) (σ σ' : State) : Prop := ExtStep {
  ext_allocated : allocated σ' = allocated σ;
  ext_class_attr : class_attr σ' = class_attr σ;
  ext_dom : dom (window σ') = dom (window σ);
  ext_trace : ∃ t, trace σ' = trace σ ++ t ∧ forallb P t = true
}.

(** A step that only updates elements, flushes, prints or sleeps. *)
Record ui_step (σ σ' : State) : Prop := UiStep {
  ui_ext : ext_step ui_effect σ σ';
  ui_current_progress : current_progress σ' = current_progress σ;
  ui_file_count : file_count σ' = file_count σ
}.

(** What the call of object [o] does before it calls its function: it
    advances the accumulator by the object's increment, touches no
    counter but its own (and none at all in per-batch mode), and adds
    effects on the window and standard output only. *)
Record wrapper_step (o : nat) (self : attrs) (σ σ' : State) : Prop :=
  WrapperStep {
    ws_ext : ext_step ui_effect σ σ';
    ws_current_progress :
      current_progress σ' = current_progress σ + increment_value self;
    ws_file_count_other :
      ∀ o', o' ≠ o → file_count σ' !! o' = file_count σ !! o';
    ws_file_count_batch :
      runs_each_file self = false → file_count σ' = file_count σ
  }.

(** Every run of the statement is a step that adds only effects
    satisfying [P]. *)
Definition keeps {A} (P : effect → bool) (c : M A) : Prop :=
  ∀ σ r σ', c σ = (r, σ') → ext_step P σ σ'.

(** A statement whose run neither reads nor writes any [file_count]:
    run with the counters replaced by [m], it ends the same way in the
    same state, with [m] still in place. *)
Definition ignores_file_count {A} (c : M A) : Prop :=
  ∀ m σ, c (set_file_count m σ) = ((c σ).1, set_file_count m (c σ).2).

(** ** Invocations of a ProgressUpdater *)

(** A ProgressUpdater [u] around [func] advances the accumulator by [d]
    and only then either stops on an exception of its own bookkeeping or
    goes on as the call of [func]. *)
Definition advances_then_calls `{!External} (u func : callable) (d : Z)
    (args : list pyval) (kw : kwargs) (τ : State) : Prop :=
  ∃ τm, current_progress τm = current_progress τ + d ∧
        ((∃ e, call u args kw τ = (Raise e, τm)) ∨
         call u args kw τ = call func args kw τm).

(** One call of [c] per entry of [calls], in order, whatever each call
    returns or raises: the state after the last one. *)
Fixpoint invoke_each `{!External} (c : callable)
    (calls : list (list pyval * kwargs)) (σ : State) : State :=
  match calls with
  | [] => σ
  | (args, kw) :: rest => invoke_each c rest (call c args kw σ).2
  end.

(** The label an invocation of the object displays when its counter
    reads [n]. *)
Definition shown_label (self : attrs) (n : Z) : string :=
  if runs_each_file self
  then "File #" +:+ pretty n +:+ ": " +:+ label self
  else label self.

(** The effects of one invocation's bookkeeping up to the flush, when the
    accumulator was [current] and the object's counter read [n]. *)
Definition bookkeeping (self : attrs) (current n : Z) : list effect :=
  [EUpdate (pbar_key self) (upd_count (current + increment_value self));
   EUpdate (label_key self) (upd_value (shown_label self n));
   ERefresh].

(** A run of calls, in order, each going on whatever the one before
    returned or raised: for every call that reaches [u], the label it
    displayed on element [key] first, which is the one [u] itself shows
    before it calls its function. *)
Fixpoint labels_of `{!External} (u : callable) (key : string)
    (calls : list (callable * list pyval * kwargs)) (σ : State)
    : list string :=
  match calls with
  | [] => []
  | (c, args, kw) :: rest =>
      let σ' := (call c args kw σ).2 in
      (if decide (callee c = u)
       then take 1 (labels_shown key (drop (length (trace σ)) (trace σ')))
       else [])
      ++ labels_of u key rest σ'
  end.

(** How many of the calls reach [u]. *)
Definition invocations (u : callable)
    (calls : list (callable * list pyval * kwargs)) : nat :=
  length (filter (λ c, callee c.1.1 = u) calls).

(** ** Run requests *)

(** The state in which the first [window.read()] returns [values]: the
    window of the layout with the fields as the user filled them. *)
Definition first_read (values : Values) : State :=
  set_window (typed values (window initial_state)) initial_state.

(** The message the handler shows when a run is refused. *)
Definition refusal (values : Values) : string :=
  if bool_decide (INPUTS values = "")
  then if bool_decide (OUTPUT values = "") then error_both else error_inputs
  else error_output.

(** Two existing files into folder [out], with the fields' defaults. *)
Definition two_files : Values :=
  {| INPUTS := "a.png;b.png"; OUTPUT := "out"; MAXDISTORTION := "80";
     NSTEPS := "20"; SAVE_STEPS := false; NO_UPSCALING := false |}.

(** One existing and one missing file. *)
Definition one_missing : Values :=
  {| INPUTS := "a.png;missing.png"; OUTPUT := "out"; MAXDISTORTION := "80";
     NSTEPS := "20"; SAVE_STEPS := false; NO_UPSCALING := false |}.

(** The input field left empty. *)
Definition no_inputs : Values :=
  {| INPUTS := ""; OUTPUT := "out"; MAXDISTORTION := "80";
     NSTEPS := "20"; SAVE_STEPS := false; NO_UPSCALING := false |}.

(** The files that exist in the demonstration runs. *)
Definition on_disk (file : string) : bool :=
  bool_decide (file ∈ ["a.png"; "b.png"]).

(** The world of the demonstration runs, for each way the GUI library may
    treat a key that no element has. *)
Definition demo (policy : missing_key) : External :=
  spec_world on_disk (λ _, policy).

(** ** Runs of one stage, run after run *)


(** The pipeline's use of one stage slot: the method [s] called once on
    each of [n] items, the objects [VObj first] and following, whatever
    each call returns or raises. *)
Fixpoint once_per_item (s : slot) (first n : nat) : pipeline :=
  match n with
  | O => Done (Ok VNone)
  | S n' => Invoke s (VObj first) [] [] (λ _, once_per_item s (S first) n')
  end.

(** What a statement run from [σ] adds to the accumulator. *)
Definition added {A} (c : M A) (σ : State) : Z :=
  current_progress (c σ).2 - current_progress σ.

(** The effects of a statement run from [σ], oldest first. *)
Definition effects_of {A} (c : M A) (σ : State) : list effect :=
  drop (length (trace σ)) (trace (c σ).2).

(** * Vocabulary of the further properties *)

(** The keys of the elements that a call of [c] updates: the bar and
    label keys of every ProgressUpdater it goes through. *)
Fixpoint keys (c : callable) : list string :=
  match c with
  | StageFunction _ => []
  | Updater _ self func => pbar_key self :: label_key self :: keys func
  | Partial c' _ => keys c'
  end.

(** Every ProgressUpdater behind [c] was built with the two keys the
    handler passes to the constructor. *)
Fixpoint handler_keyed (c : callable) : bool :=
  match c with
  | StageFunction _ => true
  | Updater _ self func =>
      bool_decide (pbar_key self = "-PBAR-")
      && bool_decide (label_key self = "-PBARLABEL-")
      && handler_keyed func
  | Partial c' _ => handler_keyed c'
  end.

(** The bar element displays the accumulator. *)
Definition bar_shows_progress (σ : State) : Prop :=
  current_count <$> window σ !! "-PBAR-" = Some (current_progress σ).

(** What one invocation of slot [s] adds to the accumulator when the
    handler has just wrapped the pipeline's own functions for [N] files:
    the floor of the stage's share per file for the three per-item
    stages, the whole share for [save], nothing for the slot it does not
    wrap. *)
Definition slot_increment (N : Z) (s : slot) : Z :=
  match s with
  | DiffeoImage_init => ProgressUpdater.floor_quotient 5 N
  | DiffeoImage_getdiffeo => ProgressUpdater.floor_quotient 25 N
  | DiffeoImage_interpolate_image => ProgressUpdater.floor_quotient 65 N
  | DiffeoImageDir_save => 5
  | DiffeoImageDir_init => 0
  end.

(** The slots a run of the pipeline invokes, in order. *)
Fixpoint invoked `{!External} (p : pipeline) (σ : State) : list slot :=
  match p with
  | Done _ => []
  | Invoke s instance args kw k =>
      let (r, σ') := call_method (class_attr σ s) instance args kw σ in
      s :: invoked (k r) σ'
  end.

(** How often [s] is among the slots. *)
Definition times (s : slot) (l : list slot) : Z :=
  Z.of_nat (length (filter (λ x, x = s) l)).

(** The sum of a list of integers. *)
Definition total (l : list Z) : Z := foldr Z.add 0 l.

(** Every character is one of the ten digits. *)
Fixpoint all_digits (s : string) : bool :=
  match s with
  | EmptyString => true
  | String c s' => is_digit c && all_digits s'
  end.

(** [s] followed by the character [c]. *)
Fixpoint snoc_char (s : string) (c : ascii) : string :=
  match s with
  | EmptyString => String c EmptyString
  | String a s' => String a (snoc_char s' c)
  end.

(** How often the character occurs in the string. *)
Fixpoint occurrences (c : ascii) (s : string) : nat :=
  match s with
  | EmptyString => 0
  | String a s' => (if decide (a = c) then 1 else 0) + occurrences c s'
  end.

(** The [try] block on what [prepare] returned. *)
Definition try_body_with `{!External}
    (a : list string * string * Z * Z * bool * bool) : M pyval :=
  let '(inputs, output_dir, maxdistortion, nsteps, save_steps, upscale) := a in
  try_body inputs output_dir maxdistortion nsteps save_steps upscale.

(** How the [try] block ends when the handler runs the request [values]
    from state [σ]: the result of the handler's statements up to the end
    of that block. *)
Definition pipeline_outcome `{!External} (values : Values) (σ : State)
    : result pyval :=
  ((print_debug ;; do a <- prepare values; try_body_with a) σ).1.

(** What a [try] statement without a matching [except] passes on: the
    exception, or nothing. *)
Definition passed_on (r : result pyval) : result unit :=
  match r with
  | Ok _ => Ok ()
  | Raise e => Raise e
  end.

(** The window while the program waits for an event: the bar and its
    label hidden, the bar at 0 like the accumulator. *)
Record idle (σ : State) : Prop := Idle {
  idle_progress : current_progress σ = 0;
  idle_bar_count : current_count <$> window σ !! "-PBAR-" = Some 0;
  idle_bar_hidden : visible <$> window σ !! "-PBAR-" = Some false;
  idle_label_hidden : visible <$> window σ !! "-PBARLABEL-" = Some false;
  idle_elements : dom (window σ) = dom layout
}.

(** The library answers the lookup of a key that no element has with
    the element of key [k]. *)
Definition redirects_to (k : string) (policy : missing_key) : bool :=
  match policy with
  | ClosestKey k' => bool_decide (k' = k)
  | _ => false
  end.

(** A world in which every stage function raises [e], for runs in which
    the pipeline fails. *)
Definition failing (e : exn) : External :=
  {| int := decimal;
     find_element_missing := λ _, RaiseKeyError;
     stage := λ _ _ _ _, Raise e;
     run_diffeomorph := spec_run_diffeomorph;
     float_floor := λ a b, Ok (a / b) |}.

(** A request whose first number does not read as one. *)
Definition bad_number : Values :=
  {| INPUTS := "a.png"; OUTPUT := "out"; MAXDISTORTION := "a1";
     NSTEPS := "20"; SAVE_STEPS := false; NO_UPSCALING := false |}.

(** * Properties *)

(** ** Steps that leave the classes alone *)

Lemma ext_step_refl P σ : ext_step P σ σ.
Proof.
  split; try reflexivity. exists []. by rewrite app_nil_r.
Qed.

Lemma ext_step_trans P σ1 σ2 σ3 :
  ext_step P σ1 σ2 → ext_step P σ2 σ3 → ext_step P σ1 σ3.
Proof.
  intros [? ? ? [t1 [? ?]]] [? ? ? [t2 [? ?]]].
  split; try congruence.
  exists (t1 ++ t2). split.
  - rewrite app_assoc. congruence.
  - rewrite forallb_app. by apply andb_true_iff.
Qed.

Lemma ext_step_weaken (P Q : effect → bool) σ σ' :
  (∀ e, P e = true → Q e = true) → ext_step P σ σ' → ext_step Q σ σ'.
Proof.
  intros HPQ [? ? ? [t [? Ht]]]. split; try done.
  exists t. split; [done|].
  apply forallb_forall. intros e He.
  apply HPQ. revert e He. by apply forallb_forall.
Qed.

(** ** Steps that only touch the window and standard output *)

Lemma ui_step_refl σ : ui_step σ σ.
Proof. split; try reflexivity. apply ext_step_refl. Qed.

Lemma ui_step_trans σ1 σ2 σ3 : ui_step σ1 σ2 → ui_step σ2 σ3 → ui_step σ1 σ3.
Proof.
  intros [? ? ?] [? ? ?]. split; try congruence.
  by eapply ext_step_trans.
Qed.

Lemma ui_step_emit e σ : ui_effect e = true → ui_step σ (emit e σ).
Proof.
  intros He. repeat split. exists [e]. simpl. by rewrite He.
Qed.

Lemma ui_step_update key k u e σ :
  window σ !! k = Some e →
  ui_step σ (emit (EUpdate key u)
               (set_window (<[k := apply_update u e]> (window σ)) σ)).
Proof.
  intros Hk. repeat split.
  - simpl. rewrite dom_insert_L.
    apply subseteq_union_1_L, singleton_subseteq_l, elem_of_dom. eauto.
  - by exists [EUpdate key u].
Qed.

Section UiFacts.
Context `{!External}.

Lemma window_update_ui key u σ r σ' :
  window_update key u σ = (r, σ') → ui_step σ σ'.
Proof.
  unfold window_update. intros Hrun.
  destruct (window σ !! key) as [e|] eqn:Hk.
  - simplify_eq. by apply ui_step_update.
  - destruct (find_element_missing key) as [ | | k]; simplify_eq.
    + by apply ui_step_emit.
    + by apply ui_step_emit.
    + change (window (emit (EKeyError key) σ)) with (window σ) in Hrun.
      destruct (window σ !! k) as [e|] eqn:Hk'; simplify_eq.
      * apply (ui_step_trans _ (emit (EKeyError key) σ)).
        -- by apply ui_step_emit.
        -- by apply (ui_step_update k k u e (emit (EKeyError key) σ)).
      * by apply ui_step_emit.
Qed.

(** With the element in the window, [update] changes that element and
    nothing raises. *)
Lemma window_update_present key u e σ :
  window σ !! key = Some e →
  window_update key u σ
  = (Ok (), emit (EUpdate key u)
              (set_window (<[key := apply_update u e]> (window σ)) σ)).
Proof. intros Hk. unfold window_update. by rewrite Hk. Qed.

Lemma window_refresh_ui σ r σ' : window_refresh σ = (r, σ') → ui_step σ σ'.
Proof. intros Hrun. inversion Hrun. by apply ui_step_emit. Qed.

End UiFacts.

Lemma print_ui args kw σ r σ' : print args kw σ = (r, σ') → ui_step σ σ'.
Proof.
  unfold print. intros Hrun.
  destruct (print_target kw); inversion Hrun; subst;
    first [apply ui_step_refl | by apply ui_step_emit].
Qed.

Lemma sleep_ui n σ r σ' : sleep n σ = (r, σ') → ui_step σ σ'.
Proof. intros Hrun. inversion Hrun. by apply ui_step_emit. Qed.

(** ** What a ProgressUpdater does before it calls its function *)

Lemma wrapper_step_start o self σ :
  wrapper_step o self σ
    (set_current_progress (current_progress σ + increment_value self) σ).
Proof.
  repeat split; try done. exists []. simpl. by rewrite app_nil_r.
Qed.

Lemma wrapper_step_ui o self σ σ1 σ2 :
  wrapper_step o self σ σ1 → ui_step σ1 σ2 → wrapper_step o self σ σ2.
Proof.
  intros [? ? Ho Hb] [? ? Hfc]. split.
  - by eapply ext_step_trans.
  - congruence.
  - intros o' Ho'. rewrite Hfc. by apply Ho.
  - intros Hr. rewrite Hfc. by apply Hb.
Qed.

Lemma wrapper_step_count o self n σ σ1 :
  runs_each_file self = true →
  wrapper_step o self σ σ1 →
  wrapper_step o self σ (set_file_count (<[o := n]> (file_count σ1)) σ1).
Proof.
  intros Hr [[? ? ? ?] ? Ho Hb]. split; try done.
  - intros o' Ho'. simpl. rewrite lookup_insert_ne by done. by apply Ho.
  - congruence.
Qed.

Section CallFacts.
Context `{!External}.

Lemma call_plain c :
  plain c = true →
  ∀ args kw σ, ∃ f args',
    call c args kw σ
    = (stage f args' kw (length (trace σ)), emit (ECall f args' kw) σ).
Proof.
  induction c as [f | o self func IH | c IH x]; intros Hp args kw σ.
  - exists f, args. reflexivity.
  - discriminate.
  - simpl in *. apply IH. exact Hp.
Qed.

(** A call of a ProgressUpdater either ends before [self.func] is
    called, with an exception of the window or of [print], or is the
    call of [self.func] on the same arguments in the state the
    bookkeeping left. *)
Lemma call_instance_cases o self func args kw σ r σ' :
  call (Updater o self func) args kw σ = (r, σ') →
  ∃ σm, wrapper_step o self σ σm ∧
    ((∃ e, r = Raise e ∧ σ' = σm) ∨ call func args kw σm = (r, σ')).
Proof.
  simpl. unfold ProgressUpdater.__call__. intros Hrun.
  unfold bind at 1 in Hrun. unfold modify at 1 in Hrun.
  pose proof (wrapper_step_start o self σ) as H0.
  set (σ0 := set_current_progress _ σ) in *. clearbody σ0.
  unfold bind at 1 in Hrun. unfold gets at 1 in Hrun.
  unfold bind at 1 in Hrun.
  destruct (window_update _ _ σ0) as [[[]|e] σ1] eqn:H1;
    apply window_update_ui in H1;
    pose proof (wrapper_step_ui _ _ _ _ _ H0 H1) as H1'; clear H0 H1;
    [|simplify_eq; exists σ'; split; [done|left; by exists e]].
  unfold bind at 1 in Hrun.
  match type of Hrun with
  | context [(if runs_each_file self then ?a else ?b) σ1] =>
      destruct ((if runs_each_file self then a else b) σ1)
        as [[s|e] σ2] eqn:H2
  end.
  2:{ simplify_eq. exists σ'. split; [|left; by exists e].
      destruct (runs_each_file self); [|discriminate].
      unfold bind, ProgressUpdater.get_file_count in H2.
      destruct (file_count σ1 !! o); by simplify_eq. }
  assert (H2' : wrapper_step o self σ σ2).
  { destruct (runs_each_file self) eqn:Hr.
    - unfold bind, ProgressUpdater.get_file_count, modify, ret in H2.
      destruct (file_count σ1 !! o) as [n|]; simplify_eq.
      by apply wrapper_step_count.
    - unfold ret in H2. by simplify_eq. }
  clear H1' H2.
  unfold bind at 1 in Hrun.
  destruct (window_update _ _ σ2) as [[[]|e] σ3] eqn:H3;
    apply window_update_ui in H3;
    pose proof (wrapper_step_ui _ _ _ _ _ H2' H3) as H3'; clear H2' H3;
    [|simplify_eq; exists σ'; split; [done|left; by exists e]].
  unfold bind at 1 in Hrun.
  destruct (window_refresh σ3) as [[[]|e] σ4] eqn:H4;
    apply window_refresh_ui in H4;
    pose proof (wrapper_step_ui _ _ _ _ _ H3' H4) as H4'; clear H3' H4;
    [|simplify_eq; exists σ'; split; [done|left; by exists e]].
  unfold bind at 1 in Hrun.
  destruct (print args kw σ4) as [[[]|e] σ5] eqn:H5;
    apply print_ui in H5;
    pose proof (wrapper_step_ui _ _ _ _ _ H4' H5) as H5'; clear H4' H5;
    [|simplify_eq; exists σ'; split; [done|left; by exists e]].
  exists σ5. split; [done|by right].
Qed.

End CallFacts.

(** ** Calls never rebind a class attribute or reset the accumulator *)

Lemma ui_stage_effect e : ui_effect e = true → stage_effect e = true.
Proof. by destruct e. Qed.

Section CallFrame.
Context `{!External}.

Lemma call_ext c :
  ∀ args kw σ r σ', call c args kw σ = (r, σ') → ext_step stage_effect σ σ'.
Proof.
  induction c as [f | o self func IH | c IH x]; intros args kw σ r σ' Hrun.
  - simpl in Hrun. unfold bind, gets, modify, lift in Hrun. simplify_eq.
    repeat split. by exists [ECall f args kw].
  - apply call_instance_cases in Hrun as (σm & [Hext _ _ _] & Hcase).
    apply (ext_step_weaken _ _ _ _ ui_stage_effect) in Hext.
    destruct Hcase as [(e & _ & ->) | Hfunc]; [done|].
    eapply ext_step_trans; [exact Hext|]. by eapply IH.
  - simpl in Hrun. by eapply IH.
Qed.

Lemma call_method_ext c instance args kw σ r σ' :
  call_method c instance args kw σ = (r, σ') → ext_step stage_effect σ σ'.
Proof. destruct c; apply call_ext. Qed.

Lemma run_pipeline_ext p :
  ∀ σ r σ', run_pipeline p σ = (r, σ') → ext_step stage_effect σ σ'.
Proof.
  induction p as [r0 | s instance args kw k IH]; intros σ r σ' Hrun.
  - inversion Hrun. apply ext_step_refl.
  - simpl in Hrun.
    destruct (call_method _ _ _ _ σ) as [r1 σ1] eqn:H1.
    apply call_method_ext in H1.
    eapply ext_step_trans; [exact H1|]. by eapply IH.
Qed.

(** Around a pipeline function the accumulator ends a call advanced by
    [increment_value], however the call ends. *)
Lemma call_instance_progress o self func args kw σ :
  plain func = true →
  current_progress (call (Updater o self func) args kw σ).2
  = current_progress σ + increment_value self.
Proof.
  intros Hp.
  destruct (call (Updater o self func) args kw σ) as [r σ'] eqn:Hrun.
  apply call_instance_cases in Hrun as (σm & [_ Hcp _ _] & Hcase).
  destruct Hcase as [(e & _ & ->) | Hfunc]; [done|].
  destruct (call_plain func Hp args kw σm) as (f & args' & Heq).
  rewrite Heq in Hfunc. by simplify_eq.
Qed.

End CallFrame.

(** ** Construction of a ProgressUpdater *)

Section InitFacts.
Context `{!External}.

Lemma floor_quotient_files a b :
  1 ≤ b → ProgressUpdater.floor_quotient a b = a / b.
Proof.
  intros Hb. unfold ProgressUpdater.floor_quotient.
  by rewrite (proj2 (Z.ltb_ge b 0)) by lia.
Qed.

(** The quotient of a stage weight at the edge of the floats: a negative
    quotient of magnitude 2^-1075 or less is rounded to the negative
    zero, whose floor is 0; just above it the floor is -1. *)
Example floor_quotient_underflow :
  ProgressUpdater.floor_quotient 25 2 = 12 ∧
  ProgressUpdater.floor_quotient 25 (-2) = -13 ∧
  ProgressUpdater.floor_quotient 5 (- (5 * 2 ^ 1075)) = 0 ∧
  ProgressUpdater.floor_quotient 5 (- (5 * 2 ^ 1075 - 1)) = -1.
Proof. repeat split; by vm_compute. Qed.

Lemma init_per_item_quotient func pbar_key label_key weight N label σ :
  0 ≤ weight ≤ 100 →
  N ≠ 0 →
  ProgressUpdater.__init__ func pbar_key label_key weight N label true σ
  = (Ok (Updater (allocated σ)
           (Attrs pbar_key label_key label
              (ProgressUpdater.floor_quotient weight N) true) func),
     set_file_count (<[allocated σ := 1]> (file_count σ))
       (set_allocated (S (allocated σ)) σ)).
Proof.
  intros Hw HN. unfold ProgressUpdater.__init__, ProgressUpdater.floor_div.
  unfold bind, gets, modify, ret. simpl.
  destruct (decide (N = 0)); [done|]. by destruct (decide (0 ≤ weight ≤ 100)).
Qed.

Lemma init_per_item func pbar_key label_key weight N label σ :
  0 ≤ weight ≤ 100 →
  1 ≤ N →
  ProgressUpdater.__init__ func pbar_key label_key weight N label true σ
  = (Ok (Updater (allocated σ)
           (Attrs pbar_key label_key label (weight / N) true) func),
     set_file_count (<[allocated σ := 1]> (file_count σ))
       (set_allocated (S (allocated σ)) σ)).
Proof.
  intros Hw HN. rewrite init_per_item_quotient by lia.
  by rewrite floor_quotient_files.
Qed.

Lemma init_per_batch func pbar_key label_key weight N label σ :
  ProgressUpdater.__init__ func pbar_key label_key weight N label false σ
  = (Ok (Updater (allocated σ)
           (Attrs pbar_key label_key label weight false) func),
     set_allocated (S (allocated σ)) σ).
Proof. reflexivity. Qed.

End InitFacts.

(** The exact quotient [weight / N] of the program's operands stays well
    below the next integer (by a relative margin of at least 1/10100), so
    rounding the float quotient cannot reach it and [floor] of the float
    is the integer quotient. *)
Lemma floor_div_margin weight N :
  0 ≤ weight ≤ 100 → 1 ≤ N →
  (weight / N + 1) * N ≤ 10100 * ((weight / N + 1) * N - weight).
Proof.
  intros Hw HN.
  pose proof (Z.div_mod weight N ltac:(lia)) as Hdm.
  pose proof (Z.mod_pos_bound weight N ltac:(lia)) as Hm.
  destruct (Z_lt_le_dec weight N) as [Hlt|Hle].
  - rewrite (Z.div_small weight N) by lia. lia.
  - assert (weight / N ≤ 100).
    { apply Z.div_le_upper_bound; lia. }
    assert (1 ≤ (weight / N + 1) * N - weight) by nia.
    assert ((weight / N + 1) * N ≤ 101 * 100) by nia.
    lia.
Qed.

Lemma call_instance_advances `{!External} o self func args kw τ :
  advances_then_calls (Updater o self func) func (increment_value self)
    args kw τ.
Proof.
  destruct (call (Updater o self func) args kw τ) as [r τ'] eqn:Hrun.
  pose proof Hrun as Hrun'.
  apply call_instance_cases in Hrun' as (τm & [_ Hcp _ _] & Hcase).
  exists τm. split; [done|].
  destruct Hcase as [(e & -> & ->) | Hfunc]; [left; by exists e|right].
  rewrite <- Hrun in Hfunc. by rewrite Hfunc.
Qed.

Lemma invoke_each_progress `{!External} o self func calls :
  plain func = true →
  ∀ τ, current_progress (invoke_each (Updater o self func) calls τ)
       = current_progress τ + increment_value self * Z.of_nat (length calls).
Proof.
  intros Hp. induction calls as [|[args kw] rest IH]; intros τ.
  - simpl. lia.
  - cbn [invoke_each length]. rewrite IH.
    rewrite call_instance_progress by done. lia.
Qed.

Lemma dom_insert_present (w : gmap string Element) k e e' :
  w !! k = Some e → dom (<[k := e']> w) = dom w.
Proof.
  intros Hk. rewrite dom_insert_L.
  apply subseteq_union_1_L, singleton_subseteq_l, elem_of_dom. eauto.
Qed.

Lemma lookup_insert_is_Some' (w : gmap string Element) k k' e :
  is_Some (w !! k') → is_Some (<[k := e]> w !! k').
Proof.
  intros Hk'. destruct (decide (k = k')) as [->|Hne].
  - rewrite lookup_insert_eq. eauto.
  - by rewrite lookup_insert_ne.
Qed.

Section CallExact.
Context `{!External}.

(** With both elements in the window and the counter assigned where it is
    read, a call advances the accumulator, shows the count and the label,
    flushes, and goes on with [print] and the call of [self.func]. *)
Lemma call_instance_shows o self func args kw σ n :
  is_Some (window σ !! pbar_key self) →
  is_Some (window σ !! label_key self) →
  (runs_each_file self = true → file_count σ !! o = Some n) →
  ∃ σ3,
    call (Updater o self func) args kw σ
    = (print args kw ;; call func args kw) σ3 ∧
    trace σ3 = trace σ ++ bookkeeping self (current_progress σ) n ∧
    current_progress σ3 = current_progress σ + increment_value self ∧
    file_count σ3
    = (if runs_each_file self then <[o := n + 1]> (file_count σ)
       else file_count σ) ∧
    allocated σ3 = allocated σ ∧
    class_attr σ3 = class_attr σ ∧
    dom (window σ3) = dom (window σ).
Proof.
  intros [e1 H1] Hlk Hn.
  simpl. unfold ProgressUpdater.__call__.
  unfold bind at 1. unfold modify at 1.
  unfold bind at 1. unfold gets at 1.
  unfold bind at 1.
  erewrite window_update_present by (simpl; exact H1).
  unfold bind at 1.
  set (w1 := <[pbar_key self := _]> _).
  assert (Hw1 : dom w1 = dom (window σ)) by (by eapply dom_insert_present).
  destruct (lookup_insert_is_Some' (window σ) (pbar_key self) (label_key self)
              (apply_update (upd_count (current_progress σ + increment_value self)) e1)
              Hlk) as [e2 H2].
  change (<[pbar_key self:=_]> (window σ)) with w1 in H2.
  unfold bookkeeping, shown_label.
  destruct (runs_each_file self) eqn:Hr.
  - unfold bind at 1. unfold ProgressUpdater.get_file_count at 1.
    simpl file_count. rewrite (Hn eq_refl).
    unfold bind at 1. unfold modify at 1. unfold ret at 1.
    unfold bind at 1.
    erewrite window_update_present by (simpl; exact H2).
    unfold bind at 1. unfold window_refresh, modify.
    eexists. split; [reflexivity|].
    simpl. rewrite <- !app_assoc.
    repeat split; try done.
    rewrite (dom_insert_present _ _ _ _ H2). done.
  - unfold ret at 1.
    unfold bind at 1.
    erewrite window_update_present by (simpl; exact H2).
    unfold bind at 1. unfold window_refresh, modify.
    eexists. split; [reflexivity|].
    simpl. rewrite <- !app_assoc.
    repeat split; try done.
    rewrite (dom_insert_present _ _ _ _ H2). done.
Qed.

(** When [print] takes the keywords, the call is the call of [self.func]
    on the same arguments, after the bookkeeping and the [print]. *)
Lemma call_instance_ok o self func args kw σ n file :
  is_Some (window σ !! pbar_key self) →
  is_Some (window σ !! label_key self) →
  (runs_each_file self = true → file_count σ !! o = Some n) →
  print_target kw = Ok file →
  ∃ σm,
    call (Updater o self func) args kw σ = call func args kw σm ∧
    trace σm
    = trace σ ++ bookkeeping self (current_progress σ) n ++ [EPrint file] ∧
    current_progress σm = current_progress σ + increment_value self ∧
    file_count σm
    = (if runs_each_file self then <[o := n + 1]> (file_count σ)
       else file_count σ) ∧
    allocated σm = allocated σ ∧
    class_attr σm = class_attr σ ∧
    dom (window σm) = dom (window σ).
Proof.
  intros Hpk Hlk Hn Hprint.
  destruct (call_instance_shows o self func args kw σ n Hpk Hlk Hn)
    as (σ3 & Hcall & Htr & Hcp & Hfc & Hal & Hca & Hdom).
  exists (emit (EPrint file) σ3). split.
  - rewrite Hcall. unfold bind, print. by rewrite Hprint.
  - repeat split; try done.
    cbn [trace emit]. rewrite Htr. by rewrite <- app_assoc.
Qed.

(** When [print] rejects the keywords, the call raises what [print]
    raises and [self.func] is never called. *)
Lemma call_instance_print_raises o self func args kw σ n e :
  is_Some (window σ !! pbar_key self) →
  is_Some (window σ !! label_key self) →
  (runs_each_file self = true → file_count σ !! o = Some n) →
  print_target kw = Raise e →
  ∃ σ3,
    call (Updater o self func) args kw σ = (Raise e, σ3) ∧
    trace σ3 = trace σ ++ bookkeeping self (current_progress σ) n.
Proof.
  intros Hpk Hlk Hn Hprint.
  destruct (call_instance_shows o self func args kw σ n Hpk Hlk Hn)
    as (σ3 & Hcall & Htr & _).
  exists σ3. split; [|done].
  rewrite Hcall. unfold bind, print. by rewrite Hprint.
Qed.

End CallExact.

(** ** Keyword arguments and the wrapper's [print] *)

Lemma print_target_unknown kw k v :
  (k, v) ∈ kw → k ∉ print_keywords → print_target kw = Raise TypeError.
Proof.
  intros Hin Hk. unfold print_target.
  destruct (forallb print_accepts_keyword kw) eqn:Hall; [|done].
  exfalso. apply Hk.
  assert (Hacc : print_accepts_keyword (k, v) = true).
  { revert Hin. rewrite list_elem_of_In. revert Hall.
    rewrite forallb_forall. intros Hall Hin. by apply Hall. }
  unfold print_accepts_keyword in Hacc. by apply bool_decide_eq_true in Hacc.
Qed.

(** Whatever the wrapped function is, a keyword argument that [print]
    does not know makes the wrapper raise [TypeError] before the function
    is called. *)
Lemma call_instance_unknown_keyword `{!External} o self func args kw σ n k v :
  is_Some (window σ !! pbar_key self) →
  is_Some (window σ !! label_key self) →
  (runs_each_file self = true → file_count σ !! o = Some n) →
  (k, v) ∈ kw → k ∉ print_keywords →
  ∃ σ', call (Updater o self func) args kw σ = (Raise TypeError, σ') ∧
        trace σ' = trace σ ++ bookkeeping self (current_progress σ) n.
Proof.
  intros Hpk Hlk Hn Hin Hk.
  apply call_instance_print_raises; try done.
  by eapply print_target_unknown.
Qed.

(** ** Where [file_count] is read *)

Lemma ignores_ret {A} (a : A) : ignores_file_count (ret a).
Proof. by intros m σ. Qed.

Lemma ignores_lift {A} (r : result A) : ignores_file_count (lift r).
Proof. by intros m σ. Qed.

Lemma ignores_raise {A} (e : exn) : ignores_file_count (@raise A e).
Proof. by intros m σ. Qed.

Lemma ignores_bind {A B} (c : M A) (k : A → M B) :
  ignores_file_count c → (∀ a, ignores_file_count (k a)) →
  ignores_file_count (bind c k).
Proof.
  intros Hc Hk m σ. unfold bind. rewrite Hc.
  destruct (c σ) as [[a|e] σ']; simpl; [apply Hk|done].
Qed.

Lemma ignores_modify (f : State → State) :
  (∀ m σ, f (set_file_count m σ) = set_file_count m (f σ)) →
  ignores_file_count (modify f).
Proof. intros Hf m σ. unfold modify. simpl. by rewrite Hf. Qed.

Lemma ignores_gets {A} (f : State → A) :
  (∀ m σ, f (set_file_count m σ) = f σ) → ignores_file_count (gets f).
Proof. intros Hf m σ. unfold gets. simpl. by rewrite Hf. Qed.

Lemma ignores_print args kw : ignores_file_count (print args kw).
Proof.
  unfold print. destruct (print_target kw).
  - by apply ignores_modify.
  - apply ignores_raise.
Qed.

Section ReadFacts.
Context `{!External}.

Lemma ignores_window_update key u : ignores_file_count (window_update key u).
Proof.
  intros m σ. unfold window_update. simpl.
  destruct (window σ !! key); [done|].
  destruct (find_element_missing key); try done.
  simpl. by destruct (window σ !! _).
Qed.

Lemma ignores_call_plain c :
  plain c = true → ∀ args kw, ignores_file_count (call c args kw).
Proof.
  induction c as [f | | c IH x]; intros Hp args kw.
  - simpl. apply ignores_bind; [by apply ignores_gets|]. intros now.
    apply ignores_bind; [by apply ignores_modify|].
    intros _. apply ignores_lift.
  - discriminate.
  - simpl. by apply IH.
Qed.

(** A per-batch ProgressUpdater around a pipeline function never reads a
    [file_count]. *)
Lemma ignores_call_batch o self func args kw :
  runs_each_file self = false → plain func = true →
  ignores_file_count (call (Updater o self func) args kw).
Proof.
  intros Hr Hp. simpl. unfold ProgressUpdater.__call__. rewrite Hr.
  apply ignores_bind; [by apply ignores_modify|]. intros _.
  apply ignores_bind; [by apply ignores_gets|]. intros current.
  apply ignores_bind; [apply ignores_window_update|]. intros _.
  apply ignores_bind; [apply ignores_ret|]. intros extended_label.
  apply ignores_bind; [apply ignores_window_update|]. intros _.
  apply ignores_bind; [by apply ignores_modify|]. intros _.
  apply ignores_bind; [apply ignores_print|]. intros _.
  by apply ignores_call_plain.
Qed.



End ReadFacts.

(** ** Labels and ordinals *)

Section LabelFacts.
Context `{!External}.

(** A call that goes through no call of object [o] leaves [o]'s counter
    alone. *)
Lemma call_file_count_other o c :
  o ∉ ids c →
  ∀ args kw σ, file_count (call c args kw σ).2 !! o = file_count σ !! o.
Proof.
  induction c as [f | o' self func IH | c IH x]; intros Ho args kw σ.
  - reflexivity.
  - simpl in Ho. apply not_elem_of_cons in Ho as [Hne Ho].
    destruct (call (Updater o' self func) args kw σ) as [r σ'] eqn:Hrun.
    apply call_instance_cases in Hrun as (σm & [_ _ Hother _] & Hcase).
    simpl. destruct Hcase as [(e & _ & ->) | Hfunc]; [by apply Hother|].
    specialize (IH Ho args kw σm). rewrite Hfunc in IH. simpl in IH.
    rewrite IH. by apply Hother.
  - simpl. by apply IH.
Qed.

Lemma call_dom c args kw σ :
  dom (window (call c args kw σ).2) = dom (window σ).
Proof.
  destruct (call c args kw σ) as [r σ'] eqn:Hrun.
  by apply call_ext in Hrun as [_ _ ? _].
Qed.

Lemma is_Some_dom (w w' : gmap string Element) k :
  dom w' = dom w → is_Some (w !! k) → is_Some (w' !! k).
Proof. intros Hd. rewrite <- !elem_of_dom. by rewrite Hd. Qed.

Lemma labels_shown_app key t1 t2 :
  labels_shown key (t1 ++ t2) = labels_shown key t1 ++ labels_shown key t2.
Proof. unfold labels_shown. apply omap_app. Qed.

Lemma labels_shown_bookkeeping self current n :
  labels_shown (label_key self) (bookkeeping self current n)
  = [shown_label self n].
Proof.
  unfold labels_shown, bookkeeping. simpl.
  destruct (decide (pbar_key self = label_key self)); simpl;
    by rewrite decide_True.
Qed.

(** One call that reaches the object displays the label of the counter's
    value before anything its function may display, and moves the counter
    on. *)
Lemma call_reaching_label o self func c :
  o ∉ ids func →
  callee c = Updater o self func →
  ∀ args kw σ n,
    is_Some (window σ !! pbar_key self) →
    is_Some (window σ !! label_key self) →
    (runs_each_file self = true → file_count σ !! o = Some n) →
    take 1 (labels_shown (label_key self)
              (drop (length (trace σ)) (trace (call c args kw σ).2)))
    = [shown_label self n] ∧
    (runs_each_file self = true →
     file_count (call c args kw σ).2 !! o = Some (n + 1)).
Proof.
  intros Ho. induction c as [f | o' self' func' _ | c IH x]; intros Hc.
  - discriminate.
  - simpl in Hc. simplify_eq. intros args kw σ n Hpk Hlk Hn.
    destruct (call_instance_shows o self func args kw σ n Hpk Hlk Hn)
      as (σ3 & Hcall & Htr & _ & Hfc & _).
    rewrite Hcall. unfold bind, print.
    destruct (print_target kw) as [file|e]; simpl.
    + pose proof (call_file_count_other o func Ho args kw
                    (emit (EPrint file) σ3)) as Hsame.
      destruct (call func args kw (emit (EPrint file) σ3)) as [r σ'] eqn:Hf.
      apply call_ext in Hf as [_ _ _ (t & Ht & _)]. simpl in Hsame, Ht |- *.
      rewrite Ht, Htr, <- !app_assoc, drop_app_length. split.
      * by rewrite labels_shown_app, labels_shown_bookkeeping.
      * intros Hr. rewrite Hsame, Hfc, Hr. by rewrite lookup_insert_eq.
    + rewrite Htr, drop_app_length. split.
      * by rewrite labels_shown_bookkeeping.
      * intros Hr. rewrite Hfc, Hr. by rewrite lookup_insert_eq.
  - simpl in Hc. intros args kw σ n. simpl. by apply IH.
Qed.

(** The labels a ProgressUpdater displays over any run of calls: one per
    call that reaches it, in the order of its counter, provided its
    function is not behind the same object and (in per-item mode) the
    other calls of the run do not go through it either. *)
Lemma labels_of_updater o self func calls :
  o ∉ ids func →
  (runs_each_file self = true →
   Forall (λ c, callee c.1.1 = Updater o self func ∨ o ∉ ids c.1.1) calls) →
  ∀ σ (n : nat),
    is_Some (window σ !! pbar_key self) →
    is_Some (window σ !! label_key self) →
    (runs_each_file self = true → file_count σ !! o = Some (Z.of_nat n)) →
    labels_of (Updater o self func) (label_key self) calls σ
    = map (λ i : nat, shown_label self (Z.of_nat i))
        (seq n (invocations (Updater o self func) calls)).
Proof.
  intros Hp. induction calls as [|[[c args] kw] rest IH];
    intros Hcalls σ n Hpk Hlk Hn; [done|].
  cbn [labels_of]. unfold invocations. rewrite filter_cons. simpl.
  assert (Hpk' : is_Some (window (call c args kw σ).2 !! pbar_key self))
    by (eapply is_Some_dom; [apply call_dom|done]).
  assert (Hlk' : is_Some (window (call c args kw σ).2 !! label_key self))
    by (eapply is_Some_dom; [apply call_dom|done]).
  assert (Hrest : runs_each_file self = true →
            Forall (λ c, callee c.1.1 = Updater o self func ∨ o ∉ ids c.1.1)
              rest).
  { intros Hr. specialize (Hcalls Hr). by inversion Hcalls. }
  destruct (decide (callee c = Updater o self func)) as [Heq|Hne].
  - destruct (call_reaching_label o self func c Hp Heq args kw σ
                (Z.of_nat n) Hpk Hlk Hn) as [Hlab Hfc].
    rewrite Hlab. simpl. f_equal.
    apply (IH Hrest _ (S n)); try done.
    intros Hr. rewrite Hfc by done. f_equal. lia.
  - simpl. apply IH; try done.
    intros Hr. specialize (Hcalls Hr). inversion Hcalls as [|? ? Hc _]; subst.
    simpl in Hc. destruct Hc as [?|Ho]; [done|].
    rewrite call_file_count_other by done. by apply Hn.
Qed.

End LabelFacts.

Lemma map_const_replicate {A B} (b : B) (l : list A) :
  map (λ _, b) l = replicate (length l) b.
Proof. induction l; simpl; congruence. Qed.

(** ** Install *)

Lemma wrap_per_item `{!External}
    (s : slot) (weight N : Z) (label : string) (ρ : State) :
  0 ≤ weight ≤ 100 →
  N ≠ 0 →
  wrap s weight N label true ρ
  = (Ok (),
     set_class_attr
       (<[s := Updater (allocated ρ)
                 (Attrs "-PBAR-" "-PBARLABEL-" label
                    (ProgressUpdater.floor_quotient weight N) true)
                 (getattr_class (class_attr ρ s))]> (class_attr ρ))
       (set_file_count (<[allocated ρ := 1]> (file_count ρ))
          (set_allocated (S (allocated ρ)) ρ))).
Proof.
  intros Hw HN. unfold wrap. unfold bind at 1. unfold gets at 1.
  unfold bind at 1. by rewrite init_per_item_quotient.
Qed.

Lemma wrap_per_batch `{!External}
    (s : slot) (weight N : Z) (label : string) (ρ : State) :
  wrap s weight N label false ρ
  = (Ok (),
     set_class_attr
       (<[s := Updater (allocated ρ)
                 (Attrs "-PBAR-" "-PBARLABEL-" label weight false)
                 (getattr_class (class_attr ρ s))]> (class_attr ρ))
       (set_allocated (S (allocated ρ)) ρ)).
Proof. reflexivity. Qed.

(** The handler's install step, in any state and for any file count but
    0: four new objects, the first three with their counter at 1, each
    around what the class lookup of its slot returned. *)
Lemma install_ok `{!External} (N : Z) (ρ : State) :
  N ≠ 0 →
  ∃ ρ',
    install N ρ = (Ok (), ρ') ∧
    class_attr ρ' DiffeoImage_init
    = Updater (allocated ρ)
        (Attrs "-PBAR-" "-PBARLABEL-" "Initializing image..."
           (ProgressUpdater.floor_quotient 5 N) true)
        (getattr_class (class_attr ρ DiffeoImage_init)) ∧
    class_attr ρ' DiffeoImage_getdiffeo
    = Updater (S (allocated ρ))
        (Attrs "-PBAR-" "-PBARLABEL-"
           "Generating diffeomorphic flow field..."
           (ProgressUpdater.floor_quotient 25 N) true)
        (getattr_class (class_attr ρ DiffeoImage_getdiffeo)) ∧
    class_attr ρ' DiffeoImage_interpolate_image
    = Updater (S (S (allocated ρ)))
        (Attrs "-PBAR-" "-PBARLABEL-"
           "Interpolating image (this may take a while; do not close window!)..."
           (ProgressUpdater.floor_quotient 65 N) true)
        (getattr_class (class_attr ρ DiffeoImage_interpolate_image)) ∧
    class_attr ρ' DiffeoImageDir_save
    = Updater (S (S (S (allocated ρ))))
        (Attrs "-PBAR-" "-PBARLABEL-"
           "Saving files (do not close window!)..." 5 false)
        (getattr_class (class_attr ρ DiffeoImageDir_save)) ∧
    class_attr ρ' DiffeoImageDir_init = class_attr ρ DiffeoImageDir_init ∧
    file_count ρ'
    = <[S (S (allocated ρ)) := 1]>
        (<[S (allocated ρ) := 1]> (<[allocated ρ := 1]> (file_count ρ))) ∧
    allocated ρ' = S (S (S (S (allocated ρ)))) ∧
    current_progress ρ' = current_progress ρ ∧
    window ρ' = window ρ ∧
    trace ρ' = trace ρ.
Proof.
  intros HN. unfold install.
  unfold bind at 1. rewrite wrap_per_item by (done || lia).
  unfold bind at 1. rewrite wrap_per_item by (done || lia).
  unfold bind at 1. rewrite wrap_per_item by (done || lia).
  rewrite wrap_per_batch.
  eexists. split; [reflexivity|]. simpl. repeat split.
Qed.

(** ** The handler: frames *)

Lemma keeps_ret {A} P (a : A) : keeps P (ret a).
Proof. intros σ r σ' Hrun. inversion Hrun. apply ext_step_refl. Qed.

Lemma keeps_raise {A} P e : keeps P (@raise A e).
Proof. intros σ r σ' Hrun. inversion Hrun. apply ext_step_refl. Qed.

Lemma keeps_bind {A B} P (c : M A) (k : A → M B) :
  keeps P c → (∀ a, keeps P (k a)) → keeps P (bind c k).
Proof.
  intros Hc Hk σ r σ' Hrun. unfold bind in Hrun.
  destruct (c σ) as [[a|e] σ1] eqn:H1.
  - eapply ext_step_trans; [by eapply Hc|by eapply Hk].
  - simplify_eq. by eapply Hc.
Qed.

Lemma keeps_weaken {A} (P Q : effect → bool) (c : M A) :
  (∀ e, P e = true → Q e = true) → keeps P c → keeps Q c.
Proof. intros HPQ Hc σ r σ' Hrun. eapply ext_step_weaken; eauto. Qed.

Lemma keeps_emit P e : P e = true → keeps P (modify (emit e)).
Proof.
  intros He σ r σ' Hrun. inversion Hrun. repeat split.
  exists [e]. simpl. by rewrite He.
Qed.

Lemma keeps_print args kw : keeps ui_effect (print args kw).
Proof. intros σ r σ' Hrun. by apply print_ui in Hrun as [? _ _]. Qed.

Lemma keeps_sleep n : keeps ui_effect (sleep n).
Proof. intros σ r σ' Hrun. by apply sleep_ui in Hrun as [? _ _]. Qed.

Lemma keeps_try_except_else {A} P (body : M A) E (handler orelse : M unit) :
  keeps P body → keeps P handler → keeps P orelse →
  keeps P (try_except_else body E handler orelse).
Proof.
  intros Hb Hh Ho σ r σ' Hrun. unfold try_except_else in Hrun.
  destruct (body σ) as [[a|e] σ1] eqn:H1.
  - eapply ext_step_trans; [by eapply Hb|by eapply Ho].
  - destruct (decide (e = E)).
    + eapply ext_step_trans; [by eapply Hb|by eapply Hh].
    + simplify_eq. by eapply Hb.
Qed.

Lemma ui_not_reset e : ui_effect e = true → not_reset e = true.
Proof. by destruct e. Qed.

Lemma stage_not_reset e : stage_effect e = true → not_reset e = true.
Proof. by destruct e. Qed.

Section HandlerFrames.
Context `{!External}.

Lemma keeps_window_update key u : keeps ui_effect (window_update key u).
Proof. intros σ r σ' Hrun. by apply window_update_ui in Hrun as [? _ _]. Qed.

Lemma keeps_window_refresh : keeps ui_effect window_refresh.
Proof. intros σ r σ' Hrun. by apply window_refresh_ui in Hrun as [? _ _]. Qed.

Lemma keeps_run_pipeline p : keeps stage_effect (run_pipeline p).
Proof. intros σ r σ'. apply run_pipeline_ext. Qed.

Lemma keeps_on_file_not_found : keeps ui_effect on_file_not_found.
Proof.
  unfold on_file_not_found.
  repeat (apply keeps_bind; [apply keeps_window_update|intros _]).
  apply keeps_window_update.
Qed.

Lemma keeps_on_success : keeps ui_effect on_success.
Proof.
  unfold on_success.
  repeat (apply keeps_bind; [apply keeps_window_update|intros _]).
  apply keeps_bind; [apply keeps_window_refresh|intros _].
  apply keeps_sleep.
Qed.

(** The [try / except / else] statement rebinds no class attribute,
    builds no object and never resets the accumulator. *)
Lemma keeps_attempt inputs output_dir maxdistortion nsteps save_steps upscale :
  keeps not_reset
    (attempt inputs output_dir maxdistortion nsteps save_steps upscale).
Proof.
  unfold attempt. apply keeps_try_except_else.
  - unfold try_body.
    apply keeps_bind;
      [apply (keeps_weaken _ _ _ ui_not_reset), keeps_print|intros _].
    apply keeps_bind; [by apply keeps_emit|intros _].
    apply (keeps_weaken _ _ _ stage_not_reset), keeps_run_pipeline.
  - apply (keeps_weaken _ _ _ ui_not_reset), keeps_on_file_not_found.
  - apply (keeps_weaken _ _ _ ui_not_reset), keeps_on_success.
Qed.

End HandlerFrames.

(** ** The handler: teardown, prepare *)

Lemma bind_Ok {A B} (c : M A) (k : A → M B) σ b σ' :
  bind c k σ = (Ok b, σ') →
  ∃ a σ1, c σ = (Ok a, σ1) ∧ k a σ1 = (Ok b, σ').
Proof.
  unfold bind. destruct (c σ) as [[a|e] σ1]; [eauto|discriminate].
Qed.

Lemma split_length sep s : (1 ≤ length (split sep s))%nat.
Proof.
  induction s as [|c s IH]; simpl; [lia|].
  destruct (decide (c = sep)); simpl; [lia|].
  destruct (split sep s); simpl in *; lia.
Qed.

Lemma resets_app t1 t2 : resets (t1 ++ t2) = (resets t1 + resets t2)%nat.
Proof. unfold resets. by rewrite filter_app, length_app. Qed.

Lemma resets_not_reset t : forallb not_reset t = true → resets t = 0%nat.
Proof.
  unfold resets. induction t as [|e t IH]; [done|].
  simpl. intros [He Ht]%andb_true_iff.
  rewrite filter_cons. destruct (decide (e = EReset)) as [->|]; [done|].
  by apply IH.
Qed.

Section HandlerSteps.
Context `{!External}.

(** The [finally] block in a window that has the bar and its label: it
    cannot fail; it assigns to each of the four slots the [unwrap] of a
    class lookup, the first one looked up on [DiffeoImageDir.__init__];
    its last step resets the accumulator. *)
Lemma teardown_ok σ :
  is_Some (window σ !! "-PBAR-") →
  is_Some (window σ !! "-PBARLABEL-") →
  ∃ σ',
    teardown σ = (Ok (), σ') ∧
    current_progress σ' = 0 ∧
    trace σ' = trace σ ++ [EUpdate "-PBAR-" (upd_count_visible 0 false);
                           EUpdate "-PBARLABEL-" (upd_value_visible "" false);
                           EReset] ∧
    class_attr σ' DiffeoImage_init
    = unwrap (getattr_class (class_attr σ DiffeoImageDir_init)) ∧
    class_attr σ' DiffeoImage_getdiffeo
    = unwrap (getattr_class (class_attr σ DiffeoImage_getdiffeo)) ∧
    class_attr σ' DiffeoImage_interpolate_image
    = unwrap (getattr_class (class_attr σ DiffeoImage_interpolate_image)) ∧
    class_attr σ' DiffeoImageDir_save
    = unwrap (getattr_class (class_attr σ DiffeoImageDir_save)) ∧
    class_attr σ' DiffeoImageDir_init = class_attr σ DiffeoImageDir_init ∧
    file_count σ' = file_count σ ∧
    allocated σ' = allocated σ ∧
    dom (window σ') = dom (window σ).
Proof.
  intros [e1 H1] Hlbl.
  destruct (lookup_insert_is_Some' (window σ) "-PBAR-" "-PBARLABEL-"
              (apply_update (upd_count_visible 0 false) e1) Hlbl) as [e2 H2].
  unfold teardown.
  unfold bind at 1. erewrite window_update_present by exact H1.
  unfold bind at 1. erewrite window_update_present by (simpl; exact H2).
  eexists. split; [reflexivity|].
  simpl. rewrite <- !app_assoc. repeat split; try done.
  rewrite (dom_insert_present _ _ _ _ H2).
  by rewrite (dom_insert_present _ _ _ _ H1).
Qed.

(** However the [finally] block is entered, if it ends normally the
    accumulator is 0. *)
Lemma teardown_progress σ σ' :
  teardown σ = (Ok (), σ') → current_progress σ' = 0.
Proof.
  unfold teardown. intros Hrun.
  repeat (apply bind_Ok in Hrun as (? & ? & _ & Hrun)).
  by inversion Hrun.
Qed.

End HandlerSteps.

Section HandlerRun.
Context `{!External}.

(** The steps before the [try] in a window that has the three elements
    and with numeric fields that [int] accepts. *)
Lemma prepare_ok values σ maxdistortion nsteps :
  is_Some (window σ !! "-ERROR-") →
  is_Some (window σ !! "-PBAR-") →
  is_Some (window σ !! "-PBARLABEL-") →
  int (MAXDISTORTION values) = Some maxdistortion →
  int (NSTEPS values) = Some nsteps →
  ∃ ρ,
    prepare values σ
    = (Ok (split ";"%char (INPUTS values), OUTPUT values, maxdistortion,
           nsteps, SAVE_STEPS values, negb (NO_UPSCALING values)), ρ) ∧
    current_progress ρ = current_progress σ ∧
    dom (window ρ) = dom (window σ) ∧
    trace ρ = trace σ ++ [EUpdate "-ERROR-" (upd_value "");
                          EUpdate "-PBAR-" (upd_count_visible 0 true);
                          EUpdate "-PBARLABEL-" (upd_visible true)] ∧
    allocated ρ = S (S (S (S (allocated σ)))) ∧
    (∀ s, s ≠ DiffeoImageDir_init →
          ∃ o self, class_attr ρ s
                    = Updater o self (getattr_class (class_attr σ s)) ∧
                    (allocated σ ≤ o)%nat) ∧
    class_attr ρ DiffeoImageDir_init = class_attr σ DiffeoImageDir_init.
Proof.
  intros [e1 H1] Hbar Hlbl Hmd Hns.
  destruct (lookup_insert_is_Some' (window σ) "-ERROR-" "-PBAR-"
              (apply_update (upd_value "") e1) Hbar) as [e2 H2].
  destruct (lookup_insert_is_Some' (window σ) "-ERROR-" "-PBARLABEL-"
              (apply_update (upd_value "") e1) Hlbl) as [e3' H3'].
  destruct (lookup_insert_is_Some'
              (<["-ERROR-" := apply_update (upd_value "") e1]> (window σ))
              "-PBAR-" "-PBARLABEL-"
              (apply_update (upd_count_visible 0 true) e2)
              (mk_is_Some _ _ H3')) as [e3 H3].
  unfold prepare.
  unfold bind at 1. erewrite window_update_present by exact H1.
  unfold bind at 1. erewrite window_update_present by (simpl; exact H2).
  unfold bind at 1. erewrite window_update_present by (simpl; exact H3).
  unfold int_of. rewrite Hmd, Hns.
  unfold bind at 1. unfold ret at 1.
  unfold bind at 1. unfold ret at 1.
  unfold bind at 1.
  pose proof (split_length ";"%char (INPUTS values)) as Hlen.
  match goal with
  | |- context [install ?N ?ρ0] =>
      destruct (install_ok N ρ0 ltac:(lia))
        as (ρ & Hrun & Hi & Hg & Hp & Hs & Hd & _ & Hal & Hcp & Hw & Htr)
  end.
  rewrite Hrun. exists ρ. split; [reflexivity|].
  rewrite Hcp, Hw, Htr, Hal. simpl. rewrite <- !app_assoc.
  repeat split; try done.
  - rewrite (dom_insert_present _ _ _ _ H3).
    rewrite (dom_insert_present _ _ _ _ H2).
    by rewrite (dom_insert_present _ _ _ _ H1).
  - intros s Hs'. destruct s; try done; eexists _, _.
    + split; [exact Hi|]. simpl. lia.
    + split; [exact Hg|]. simpl. lia.
    + split; [exact Hp|]. simpl. lia.
    + split; [exact Hs|]. simpl. lia.
Qed.

End HandlerRun.

Lemma on_run_valid `{!External} values :
  INPUTS values ≠ "" → OUTPUT values ≠ "" →
  on_run values
  = (print_debug ;;
     do a <- prepare values; try_finally (attempt_with a) teardown).
Proof.
  intros Hi Ho. unfold on_run.
  by rewrite !bool_decide_eq_false_2.
Qed.

Section Idle.
Context `{!External}.

(** A pass through the "Run" branch that ends normally leaves the
    accumulator at 0 if it found it there. *)
Lemma on_run_progress values σ σ' :
  current_progress σ = 0 →
  on_run values σ = (Ok (), σ') →
  current_progress σ' = 0.
Proof.
  intros Hcp Hrun. unfold on_run in Hrun.
  apply bind_Ok in Hrun as ([] & σ0 & Hp & Hrun).
  unfold print_debug in Hp. apply print_ui in Hp as [_ Hp _].
  destruct (bool_decide (INPUTS values = "") && bool_decide (OUTPUT values = ""));
    [apply window_update_ui in Hrun as [_ Hrun _]; congruence|].
  destruct (bool_decide (INPUTS values = ""));
    [apply window_update_ui in Hrun as [_ Hrun _]; congruence|].
  destruct (bool_decide (OUTPUT values = ""));
    [apply window_update_ui in Hrun as [_ Hrun _]; congruence|].
  apply bind_Ok in Hrun as (a & ρ & _ & Hrun).
  unfold try_finally in Hrun.
  destruct (attempt_with a ρ) as [r1 σ1].
  destruct (teardown σ1) as [[[]|e] σ2] eqn:Htd; [|discriminate].
  simplify_eq. by eapply teardown_progress.
Qed.

Lemma only_digits_progress key text σ r σ' :
  only_digits key text σ = (r, σ') → current_progress σ' = current_progress σ.
Proof.
  unfold only_digits. intros Hrun.
  repeat case_match; try (by inversion Hrun).
  by apply window_update_ui in Hrun as [_ ? _].
Qed.

Lemma loop_body_progress ev values σ σ' :
  current_progress σ = 0 →
  loop_body ev values σ = (Ok (), σ') →
  current_progress σ' = 0.
Proof.
  intros Hcp Hrun. unfold loop_body in Hrun.
  apply bind_Ok in Hrun as ([] & σ1 & H1 & Hrun).
  apply bind_Ok in Hrun as ([] & σ2 & H2 & Hrun).
  assert (current_progress σ1 = 0).
  { destruct (decide (ev = Key "-MAXDISTORTION-"));
      [apply only_digits_progress in H1|inversion H1]; congruence. }
  assert (current_progress σ2 = 0).
  { destruct (decide (ev = Key "-NSTEPS-"));
      [apply only_digits_progress in H2|inversion H2]; congruence. }
  destruct (decide (ev = Key "Run")).
  - by eapply on_run_progress.
  - inversion Hrun. congruence.
Qed.

(** Whenever the event loop is back waiting for an event (or was closed),
    the accumulator is 0: no run hands a progress value over to the
    next. *)
Lemma event_loop_progress reads :
  ∀ σ σ', current_progress σ = 0 →
          event_loop reads σ = (Ok (), σ') →
          current_progress σ' = 0.
Proof.
  induction reads as [|[ev values] rest IH]; intros σ σ' Hcp Hrun.
  - cbn in Hrun. unfold ret in Hrun. by simplify_eq.
  - cbn [event_loop] in Hrun.
    apply bind_Ok in Hrun as ([] & σ1 & H1 & Hrun).
    unfold modify in H1. simplify_eq. destruct ev as [|k].
    + unfold ret in Hrun. by simplify_eq.
    + apply bind_Ok in Hrun as ([] & σ2 & H2 & Hrun).
      eapply IH; [|exact Hrun].
      eapply loop_body_progress; [|exact H2]. exact Hcp.
Qed.

End Idle.

(** ** What the teardown leaves in the stage slots *)

Lemma getattr_class_size c : (callable_size c ≤ callable_size (getattr_class c))%nat.
Proof. destruct c; simpl; lia. Qed.

(** In a window that has the bar and its label, install followed by the
    teardown always ends normally, and never puts back what a wrapped
    slot held: [DiffeoImage.__init__] gets what the lookup of
    [DiffeoImageDir.__init__] unwraps to, and each of the other three
    slots gets the partial object that the class lookup made of the new
    ProgressUpdater, which [unwrap] returns as it is. *)
Lemma teardown_after_install `{!External} (N : Z) (σ : State) :
  N ≠ 0 →
  is_Some (window σ !! "-PBAR-") →
  is_Some (window σ !! "-PBARLABEL-") →
  ∃ σ',
    (install N ;; teardown) σ = (Ok (), σ') ∧
    class_attr σ' DiffeoImage_init
    = unwrap (getattr_class (class_attr σ DiffeoImageDir_init)) ∧
    ∀ s, s ∈ [DiffeoImage_getdiffeo; DiffeoImage_interpolate_image;
              DiffeoImageDir_save] →
         (∃ o self, class_attr σ' s
                    = Partial (Updater o self (getattr_class (class_attr σ s)))
                        VNone) ∧
         class_attr σ' s ≠ class_attr σ s.
Proof.
  intros HN Hbar Hlbl.
  destruct (install_ok N σ HN)
    as (ρ & Hrun & Hi & Hg & Hp & Hs & Hd & _ & _ & _ & Hw & _).
  destruct (teardown_ok ρ) as (σ' & Htd & _ & _ & Hi' & Hg' & Hp' & Hs' & _);
    [by rewrite Hw..|].
  exists σ'. split; [unfold bind; by rewrite Hrun|].
  split; [by rewrite Hi', Hd|].
  assert (Hneq : ∀ o self c,
            Partial (Updater o self (getattr_class c)) VNone ≠ c).
  { intros o self c Heq. apply (f_equal callable_size) in Heq.
    pose proof (getattr_class_size c). simpl in Heq. lia. }
  intros s Hs0.
  repeat (apply elem_of_cons in Hs0 as [->|Hs0]).
  - rewrite Hg', Hg. simpl. split; [by eexists _, _|apply Hneq].
  - rewrite Hp', Hp. simpl. split; [by eexists _, _|apply Hneq].
  - rewrite Hs', Hs. simpl. split; [by eexists _, _|apply Hneq].
  - by apply elem_of_nil in Hs0.
Qed.

(** ** The demonstration runs *)

(** Scenario A of the specification: weights 5, 25, 65 and 5, two files.
    The increments are 2, 12 and 32 per item and 5 for the batch; the bar
    goes up to 92 after the items and 97 after the batch stage, is then
    set to 100, and back to 0 by the teardown. *)
Example scenario_A :
  let run := @on_run (demo RaiseKeyError) two_files (first_read two_files) in
  run.1 = Ok () ∧
  counts_shown "-PBAR-" (trace run.2)
  = [0; 2; 14; 46; 48; 60; 92; 97; 100; 0] ∧
  labels_shown "-PBARLABEL-" (trace run.2)
  = ["File #1: Initializing image...";
     "File #1: Generating diffeomorphic flow field...";
     "File #1: Interpolating image (this may take a while; do not close window!)...";
     "File #2: Initializing image...";
     "File #2: Generating diffeomorphic flow field...";
     "File #2: Interpolating image (this may take a while; do not close window!)...";
     "Saving files (do not close window!)...";
     "Diffeomorphing complete!";
     ""] ∧
  current_progress run.2 = 0.
Proof. repeat split; by vm_compute. Qed.

(** The same request once more, with a pipeline that carries on whatever
    its stage functions are handed: every stage but the first now goes
    through two ProgressUpdaters, this run's and the one the first run
    left behind; the bar passes 100 and the labels of the old objects go
    on from their old counters. The pipeline functions are entered with
    a leading [None], and [DiffeoImageDir.__init__] is entered where
    [DiffeoImage.__init__] was called. *)
Example second_run :
  let W := demo RaiseKeyError in
  let once := (@on_run W two_files (first_read two_files)).2 in
  let again := (@on_run W two_files once).2 in
  let second := drop (length (trace once)) (trace again) in
  counts_shown "-PBAR-" second
  = [0; 2; 14; 26; 58; 90; 92; 104; 116; 148; 180; 185; 190; 100; 0] ∧
  take 3 (labels_shown "-PBARLABEL-" second)
  = ["File #1: Initializing image...";
     "File #1: Generating diffeomorphic flow field...";
     "File #3: Generating diffeomorphic flow field..."] ∧
  take 2 (filter (λ e, is_call e = true) second)
  = [ECall DiffeoImageDir_init [VObj 1; VStr "a.png"] [];
     ECall DiffeoImage_getdiffeo [VNone; VObj 1] []].
Proof. repeat split; by vm_compute. Qed.

(** ** A new object around a function *)

(** For [0 <= weight <= 100] and [N >= 1], the per-item ProgressUpdater
    that [__init__] builds around a function of the pipeline itself (no
    other ProgressUpdater behind it, as in the first run), invoked [N]
    times, adds [floor(weight / N) * N] to the accumulator in total; that
    total is at most [weight], and equals it exactly when [N] divides
    [weight]. *)
Lemma accumulation_around_a_function `{!External}
    (func : callable) (pbar_key label_key label : string) (weight N : Z)
    (σ τ : State) (calls : list (list pyval * kwargs)) :
  0 ≤ weight ≤ 100 →
  1 ≤ N →
  plain func = true →
  Z.of_nat (length calls) = N →
  ∃ u σ1,
    ProgressUpdater.__init__ func pbar_key label_key weight N label true σ
    = (Ok u, σ1) ∧
    current_progress (invoke_each u calls τ)
    = current_progress τ + weight / N * N ∧
    weight / N * N ≤ weight ∧
    (weight / N * N = weight ↔ (N | weight)).
Proof.
  intros Hw HN Hp Hlen.
  eexists _, _. split; [apply init_per_item; lia|].
  split; [|split].
  - rewrite invoke_each_progress by done. simpl. by rewrite Hlen.
  - rewrite Z.mul_comm. apply Z.mul_div_le. lia.
  - rewrite <- Z.mod_divide by lia.
    rewrite <- (Z.div_exact weight N) by lia. lia.
Qed.

(** A per-item ProgressUpdater as [__init__] builds it, new and with
    its counter at 1: over any sequence of calls, each of them a call of
    this object or one that does not reach it, the first label of each
    call that reaches it is ["File #1: label"], ["File #2: label"], ...;
    a per-batch one shows its label as it is. The install of every run
    builds new objects with their counter at 1. *)
Lemma label_ordinals_of_a_new_object `{!External}
    (func : callable) (pbar_key label_key label : string) (weight N : Z)
    (σ τ ρ : State) (calls : list (callable * list pyval * kwargs)) :
  0 ≤ weight ≤ 100 →
  1 ≤ N →
  allocated σ ∉ ids func →
  is_Some (window τ !! pbar_key) →
  is_Some (window τ !! label_key) →
  let o := allocated σ in
  let item := Updater o (Attrs pbar_key label_key label (weight / N) true) func in
  let batch := Updater o (Attrs pbar_key label_key label weight false) func in
  file_count τ !! o = Some 1 →
  Forall (λ c, callee c.1.1 = item ∨ o ∉ ids c.1.1) calls →
  (∃ σ1, ProgressUpdater.__init__ func pbar_key label_key weight N label true σ
         = (Ok item, σ1) ∧ file_count σ1 !! o = Some 1) ∧
  labels_of item label_key calls τ
  = map (λ i : nat, "File #" +:+ pretty (Z.of_nat i) +:+ ": " +:+ label)
      (seq 1 (invocations item calls)) ∧
  labels_of batch label_key calls τ
  = replicate (invocations batch calls) label ∧
  (∃ ρ', install N ρ = (Ok (), ρ') ∧
     ∀ s, s ∈ [DiffeoImage_init; DiffeoImage_getdiffeo;
               DiffeoImage_interpolate_image] →
       ∃ o' self f, class_attr ρ' s = Updater o' self f ∧
                    (allocated ρ ≤ o')%nat ∧
                    runs_each_file self = true ∧
                    file_count ρ' !! o' = Some 1).
Proof.
  intros Hw HN Hp Hpk Hlk o item batch Hn Hcalls.
  split; [|split; [|split]].
  - eexists. split; [apply init_per_item; lia|].
    simpl. by rewrite lookup_insert_eq.
  - by apply (labels_of_updater o
                (Attrs pbar_key label_key label (weight / N) true)
                func calls Hp (λ _, Hcalls) τ 1%nat).
  - rewrite (labels_of_updater o
               (Attrs pbar_key label_key label weight false)
               func calls Hp) with (n := 1%nat); try done.
    unfold shown_label. simpl.
    by rewrite map_const_replicate, length_seq.
  - destruct (install_ok N ρ ltac:(lia))
      as (ρ' & Hrun & H1 & H2 & H3 & _ & _ & Hfc & _).
    exists ρ'. split; [done|].
    intros s Hs. rewrite Hfc.
    repeat (apply elem_of_cons in Hs as [->|Hs]).
    + eexists _, _, _. split; [exact H1|]. split; [lia|]. split; [done|].
      rewrite !lookup_insert_ne by lia. by rewrite lookup_insert_eq.
    + eexists _, _, _. split; [exact H2|]. split; [lia|]. split; [done|].
      rewrite lookup_insert_ne by lia. by rewrite lookup_insert_eq.
    + eexists _, _, _. split; [exact H3|]. split; [lia|]. split; [done|].
      by rewrite lookup_insert_eq.
    + by apply elem_of_nil in Hs.
Qed.

(** * Main results *)

(** C1. The teardown does not restore the stage slots. After one run on
    two existing files, [DiffeoImage.__init__] holds the function of
    [DiffeoImageDir.__init__] and the other three slots hold a partial
    object around the run's ProgressUpdater, not the functions they held
    before the install. After a second run the slots hold a partial
    object around a ProgressUpdater around the first run's partial
    object, and instantiating [DiffeoImage] in that run entered
    [DiffeoImageDir.__init__]. *)
Theorem C1_teardown_restores_no_slot :
  let W := demo RaiseKeyError in
  let start := first_read two_files in
  let once := (@on_run W two_files start).2 in
  let twice := (@on_run W two_files once).2 in
  let generating := "Generating diffeomorphic flow field..." in
  let first := Updater 1 (Attrs "-PBAR-" "-PBARLABEL-" generating 12 true)
                 (StageFunction DiffeoImage_getdiffeo) in
  class_attr start = StageFunction ∧
  class_attr once DiffeoImage_init = StageFunction DiffeoImageDir_init ∧
  class_attr once DiffeoImage_getdiffeo = Partial first VNone ∧
  class_attr once DiffeoImage_interpolate_image
  ≠ StageFunction DiffeoImage_interpolate_image ∧
  class_attr once DiffeoImageDir_save ≠ StageFunction DiffeoImageDir_save ∧
  class_attr twice DiffeoImage_getdiffeo
  = Partial (Updater 5 (Attrs "-PBAR-" "-PBARLABEL-" generating 12 true)
               (Partial first VNone)) VNone ∧
  existsb (λ e, bool_decide
                  (e = ECall DiffeoImageDir_init [VObj 1; VStr "a.png"] []))
    (trace twice) = true.
Proof. repeat split; by vm_compute. Qed.

(** C2, as the code has it. When the pipeline entry point returns
    normally, the [else] block sets the bar element's count to 100 and
    shows the completion label, flushes and sleeps; it does not touch the
    accumulator [ProgressUpdater.current_progress], which keeps the sum
    of the increments until the teardown sets it to 0. *)
Theorem C2_success_fills_the_bar `{!External}
    (inputs : list string) (output_dir : string) (maxdistortion nsteps : Z)
    (save_steps upscale : bool) (σ : State) (v : pyval) :
  let tried :=
    try_body inputs output_dir maxdistortion nsteps save_steps upscale σ in
  let run := attempt inputs output_dir maxdistortion nsteps save_steps upscale in
  tried.1 = Ok v →
  is_Some (window σ !! "-PBAR-") →
  is_Some (window σ !! "-PBARLABEL-") →
  ∃ σ2 σ3,
    run σ = (Ok (), σ2) ∧
    current_count <$> window σ2 !! "-PBAR-" = Some 100 ∧
    value <$> window σ2 !! "-PBARLABEL-" = Some "Diffeomorphing complete!" ∧
    trace σ2 = trace tried.2 ++ [EUpdate "-PBAR-" (upd_count 100);
                                 EUpdate "-PBARLABEL-"
                                   (upd_value "Diffeomorphing complete!");
                                 ERefresh; ESleep 2] ∧
    current_progress σ2 = current_progress tried.2 ∧
    try_finally run teardown σ = (Ok (), σ3) ∧
    current_progress σ3 = 0.
Proof.
  intros tried run. subst tried.
  destruct (try_body inputs output_dir maxdistortion nsteps save_steps upscale σ)
    as [r σ1] eqn:Htried.
  cbn [fst snd]. intros Hok Hbar Hlbl. subst r.
  assert (Hdom : dom (window σ1) = dom (window σ)).
  { unfold try_body in Htried.
    apply bind_Ok in Htried as ([] & σa & Ha & Htried).
    apply bind_Ok in Htried as ([] & σb & Hb & Htried).
    unfold print_debug in Ha. apply print_ui in Ha as [[_ _ Ha _] _ _].
    unfold modify in Hb. simplify_eq.
    apply run_pipeline_ext in Htried as [_ _ Htried _].
    by rewrite Htried. }
  destruct (is_Some_dom _ _ "-PBAR-" Hdom Hbar) as [e1 H1].
  destruct (lookup_insert_is_Some' (window σ1) "-PBAR-" "-PBARLABEL-"
              (apply_update (upd_count 100) e1)
              (is_Some_dom _ _ "-PBARLABEL-" Hdom Hlbl)) as [e2 H2].
  assert (Hrun : ∃ σ2, run σ = (Ok (), σ2) ∧
    current_count <$> window σ2 !! "-PBAR-" = Some 100 ∧
    value <$> window σ2 !! "-PBARLABEL-" = Some "Diffeomorphing complete!" ∧
    trace σ2 = trace σ1 ++ [EUpdate "-PBAR-" (upd_count 100);
                            EUpdate "-PBARLABEL-"
                              (upd_value "Diffeomorphing complete!");
                            ERefresh; ESleep 2] ∧
    current_progress σ2 = current_progress σ1 ∧
    dom (window σ2) = dom (window σ1)).
  { unfold run, attempt, try_except_else. rewrite Htried.
    unfold on_success.
    unfold bind at 1. erewrite window_update_present by exact H1.
    unfold bind at 1. erewrite window_update_present by (simpl; exact H2).
    eexists. split; [reflexivity|].
    simpl. rewrite lookup_insert_eq, <- !app_assoc. simpl.
    rewrite lookup_insert_ne by done. rewrite lookup_insert_eq. simpl.
    repeat split; try done.
    rewrite (dom_insert_present _ _ _ _ H2).
    by rewrite (dom_insert_present _ _ _ _ H1). }
  destruct Hrun as (σ2 & Hrun & Hcount & Hlabel & Htr & Hcp & Hdom2).
  destruct (teardown_ok σ2) as (σ3 & Htd & Hcp3 & _).
  { eapply is_Some_dom; [|exact Hbar]. by rewrite Hdom2, Hdom. }
  { eapply is_Some_dom; [|exact Hlbl]. by rewrite Hdom2, Hdom. }
  exists σ2, σ3. repeat split; try done.
  unfold try_finally. by rewrite Hrun, Htd.
Qed.

(** C2, as stated, fails: after a successful run on two files, just
    before the teardown, the accumulator reads 97, not 100; only the bar
    element shows 100. *)
Lemma C2_accumulator_not_forced_to_max :
  let W := demo RaiseKeyError in
  let before_teardown :=
    (do a <- @prepare W two_files; @attempt_with W a) (first_read two_files) in
  before_teardown.1 = Ok () ∧
  current_progress before_teardown.2 = 97 ∧
  current_progress before_teardown.2 ≠ 100 ∧
  current_count <$> window before_teardown.2 !! "-PBAR-" = Some 100.
Proof. repeat split; by vm_compute. Qed.

(** The theorem of C2 on the successful run on two files: the bar shows
    100 while the accumulator reads 97, and the teardown leaves 0. *)
Lemma C2_success_fills_the_bar_witness :
  let W := demo RaiseKeyError in
  let σ := (@prepare W two_files (first_read two_files)).2 in
  let run := @attempt W ["a.png"; "b.png"] "out" 80 20 false true in
  ∃ σ2 σ3,
    run σ = (Ok (), σ2) ∧
    current_count <$> window σ2 !! "-PBAR-" = Some 100 ∧
    value <$> window σ2 !! "-PBARLABEL-" = Some "Diffeomorphing complete!" ∧
    current_progress σ2 = 97 ∧
    try_finally run teardown σ = (Ok (), σ3) ∧
    current_progress σ3 = 0.
Proof.
  intros W σ run.
  assert (Hok : (@try_body W ["a.png"; "b.png"] "out" 80 20 false true σ).1
                = Ok VNone) by (vm_compute; reflexivity).
  assert (Hbar : is_Some (window σ !! "-PBAR-")) by (vm_compute; eauto).
  assert (Hlbl : is_Some (window σ !! "-PBARLABEL-")) by (vm_compute; eauto).
  destruct (C2_success_fills_the_bar (H := W)
              ["a.png"; "b.png"] "out" 80 20 false true σ VNone Hok Hbar Hlbl)
    as (σ2 & σ3 & Hrun & Hcount & Hlabel & _ & Hcp & Hfin & Hzero).
  exists σ2, σ3. repeat split; try done.
Defined.

(** C3. On the missing-file failure the output field is not cleared by
    the handler: it updates the element of key ["-OUTPUTS-"], which the
    layout does not have (the output field is ["-OUTPUT-"]). Run on one
    existing and one missing file with folder [out]: if the library
    raises [KeyError] for the unknown key, the handler ends with that
    exception and the message is never shown; if it hands back a
    placeholder, the handler ends normally with the message shown; either
    way the output field still reads [out], the input field is cleared
    and the [finally] block has reset the accumulator, but it leaves a
    partial object around the run's ProgressUpdater in the stage slot.
    Only a library that redirects the unknown key to ["-OUTPUT-"] gets
    the field cleared, after reporting the key as an error. *)
Theorem C3_output_field_not_cleared :
  let σ := first_read one_missing in
  let raising := @on_run (demo RaiseKeyError) one_missing σ in
  let ignoring := @on_run (demo ErrorElement) one_missing σ in
  let guessing := @on_run (demo (ClosestKey "-OUTPUT-")) one_missing σ in
  let text (key : string) (τ : State) := value <$> window τ !! key in
  let reported (τ : State) :=
    existsb (λ e, bool_decide (e = EKeyError "-OUTPUTS-")) (trace τ) in
  text "-OUTPUT-" σ = Some "out" ∧
  layout !! "-OUTPUTS-" = None ∧
  (raising.1 = Raise KeyError ∧
   text "-INPUTS-" raising.2 = Some "" ∧
   text "-OUTPUT-" raising.2 = Some "out" ∧
   text "-ERROR-" raising.2 = Some "" ∧
   current_progress raising.2 = 0 ∧
   reported raising.2 = true) ∧
  (ignoring.1 = Ok () ∧
   text "-INPUTS-" ignoring.2 = Some "" ∧
   text "-OUTPUT-" ignoring.2 = Some "out" ∧
   text "-ERROR-" ignoring.2 = Some "ERROR: One or more files not found" ∧
   current_progress ignoring.2 = 0 ∧
   reported ignoring.2 = true ∧
   class_attr ignoring.2 DiffeoImage_getdiffeo
   ≠ StageFunction DiffeoImage_getdiffeo) ∧
  (guessing.1 = Ok () ∧
   text "-OUTPUT-" guessing.2 = Some "" ∧
   reported guessing.2 = true).
Proof. repeat split; by vm_compute. Qed.

(** C4. Reset at teardown: a run that passes the checks and gets as far
    as the [try] statement ends, however the pipeline ended (normally,
    with the missing-file failure that is handled, or with any other
    exception), with the accumulator at exactly 0; [reset] ran exactly
    once in it, as its last step. *)
Theorem C4_reset_once_at_teardown `{!External}
    (values : Values) (σ : State) (maxdistortion nsteps : Z) :
  INPUTS values ≠ "" →
  OUTPUT values ≠ "" →
  int (MAXDISTORTION values) = Some maxdistortion →
  int (NSTEPS values) = Some nsteps →
  is_Some (window σ !! "-ERROR-") →
  is_Some (window σ !! "-PBAR-") →
  is_Some (window σ !! "-PBARLABEL-") →
  ∃ r σ' t,
    on_run values σ = (r, σ') ∧
    current_progress σ' = 0 ∧
    trace σ' = trace σ ++ t ++ [EReset] ∧
    resets t = 0%nat ∧
    resets (t ++ [EReset]) = 1%nat.
Proof.
  intros Hi Ho Hmd Hns Herr Hbar Hlbl.
  rewrite on_run_valid by done.
  unfold bind at 1. unfold print_debug, print. simpl.
  unfold bind at 1.
  destruct (prepare_ok values (emit (EPrint None) σ) maxdistortion nsteps)
    as (ρ & Hprep & _ & Hdom & Htr & _); try done.
  rewrite Hprep. unfold try_finally.
  destruct (attempt_with _ ρ) as [r1 σ1] eqn:Hatt.
  apply keeps_attempt in Hatt as [_ _ Hdom1 (t1 & Htr1 & Ht1)].
  destruct (teardown_ok σ1) as (σ2 & Htd & Hcp & Htr2 & _).
  { eapply is_Some_dom; [|exact Hbar]. by rewrite Hdom1, Hdom. }
  { eapply is_Some_dom; [|exact Hlbl]. by rewrite Hdom1, Hdom. }
  rewrite Htd.
  set (t := [EPrint None; EUpdate "-ERROR-" (upd_value "");
             EUpdate "-PBAR-" (upd_count_visible 0 true);
             EUpdate "-PBARLABEL-" (upd_visible true)]
            ++ t1 ++ [EUpdate "-PBAR-" (upd_count_visible 0 false);
                      EUpdate "-PBARLABEL-" (upd_value_visible "" false)]).
  assert (Ht : resets t = 0%nat).
  { unfold t. rewrite !resets_app, (resets_not_reset t1) by done. done. }
  exists r1, σ2, t. split; [done|]. split; [done|]. split; [|split; [done|]].
  - rewrite Htr2, Htr1, Htr. unfold t. simpl. by rewrite <- !app_assoc.
  - by rewrite resets_app, Ht.
Qed.

(** The theorem of C4 on the run with a missing file. *)
Lemma C4_reset_once_at_teardown_witness :
  let W := demo RaiseKeyError in
  ∃ r σ' t,
    @on_run W one_missing (first_read one_missing) = (r, σ') ∧
    current_progress σ' = 0 ∧
    trace σ' = trace (first_read one_missing) ++ t ++ [EReset] ∧
    resets t = 0%nat ∧
    resets (t ++ [EReset]) = 1%nat.
Proof.
  intros W.
  apply (C4_reset_once_at_teardown (H := W) one_missing
           (first_read one_missing) 80 20).
  - vm_compute. discriminate.
  - vm_compute. discriminate.
  - vm_compute. reflexivity.
  - vm_compute. reflexivity.
  - vm_compute. eauto.
  - vm_compute. eauto.
  - vm_compute. eauto.
Defined.

(** C5. Increment resolution: with [N >= 1] items and a stage weight
    (0 to 100), the instrumentor that [__init__] builds in per-item mode
    has increment [floor(weight / N)] and the one it builds in per-batch
    mode has increment [weight], whatever [N]; an invocation of either
    advances the accumulator by exactly that increment, once, before
    anything else happens. *)
Theorem C5_increment_resolution `{!External}
    (func : callable) (pbar_key label_key label : string) (weight N : Z)
    (σ : State) (args : list pyval) (kw : kwargs) (τ : State) :
  0 ≤ weight ≤ 100 →
  1 ≤ N →
  let per_item :=
    Updater (allocated σ) (Attrs pbar_key label_key label (weight / N) true) func in
  let per_batch :=
    Updater (allocated σ) (Attrs pbar_key label_key label weight false) func in
  (∃ σ1, ProgressUpdater.__init__ func pbar_key label_key weight N label true σ
         = (Ok per_item, σ1)) ∧
  (∃ σ1, ProgressUpdater.__init__ func pbar_key label_key weight N label false σ
         = (Ok per_batch, σ1)) ∧
  advances_then_calls per_item func (weight / N) args kw τ ∧
  advances_then_calls per_batch func weight args kw τ.
Proof.
  intros Hw HN per_item per_batch. repeat split.
  - eexists. apply init_per_item; lia.
  - eexists. apply init_per_batch.
  - apply (call_instance_advances _ (Attrs _ _ _ (weight / N) true)).
  - apply (call_instance_advances _ (Attrs _ _ _ weight false)).
Qed.

(** The theorem of C5 for weight 25 and two files: increment 12. *)
Lemma C5_increment_resolution_witness :
  let W := demo RaiseKeyError in
  let func := StageFunction DiffeoImage_getdiffeo in
  let item := Updater 0 (Attrs "-PBAR-" "-PBARLABEL-" "label" 12 true) func in
  0 ≤ 25 ≤ 100 ∧
  1 ≤ 2 ∧
  (∃ σ1, ProgressUpdater.__init__ func "-PBAR-" "-PBARLABEL-" 25 2 "label" true
           initial_state = (Ok item, σ1)) ∧
  @advances_then_calls W item func 12 [VObj 1] [] initial_state.
Proof.
  intros W func item.
  assert (H25 : 0 ≤ 25 ≤ 100) by lia.
  assert (H12 : 1 ≤ 2) by lia.
  destruct (C5_increment_resolution (H := W) func "-PBAR-" "-PBARLABEL-"
              "label" 25 2 initial_state [VObj 1] [] initial_state H25 H12)
    as (Hitem & _ & Hadv & _).
  split; [exact H25|]. split; [exact H12|]. split; [exact Hitem|exact Hadv].
Defined.

(** C6. The bound on a per-item stage's contribution holds in a
    first run and fails from the second run on. Two runs on two files:
    in the first, the install builds for [_getdiffeo] (weight 25) a
    ProgressUpdater with increment 12 around the function, and the stage
    called once per item adds 24, which is [floor(25 / 2) * 2]; before
    the second, the teardown has left the first object in the slot, the
    install builds the new one around it, and the stage called once per
    item adds 48, more than its weight; over the whole second run the
    bar is sent past its maximum of 100. *)
Theorem C6_stage_share_doubles_in_a_later_run :
  let W := demo RaiseKeyError in
  let once := (@on_run W two_files (first_read two_files)).2 in
  let first_run := (@prepare W two_files (first_read two_files)).2 in
  let later_run := (@prepare W two_files once).2 in
  let item (o : nat) :=
    Updater o (Attrs "-PBAR-" "-PBARLABEL-"
                 "Generating diffeomorphic flow field..." (25 / 2) true) in
  let stage_calls := @run_pipeline W (once_per_item DiffeoImage_getdiffeo 1 2) in
  class_attr first_run DiffeoImage_getdiffeo
  = item 1%nat (StageFunction DiffeoImage_getdiffeo) ∧
  added stage_calls first_run = 25 / 2 * 2 ∧
  class_attr later_run DiffeoImage_getdiffeo
  = item 5%nat (Partial (item 1%nat (StageFunction DiffeoImage_getdiffeo)) VNone) ∧
  added stage_calls later_run = 48 ∧
  48 ≠ 25 / 2 * 2 ∧
  ¬ 48 ≤ 25 ∧
  counts_shown "-PBAR-" (effects_of (@on_run W two_files) once)
  = [0; 2; 14; 26; 58; 90; 92; 104; 116; 148; 180; 185; 190; 100; 0].
Proof. repeat split; by vm_compute. Qed.

(** C7. The ordinals of a per-item stage are 1, 2, ... in a first run
    and are not from the second run on. Two runs on two files, the stage
    [_getdiffeo] called once per item: in the first run the label shows
    [File #1] and [File #2]; in the second run every call goes through
    the new ProgressUpdater, which counts from 1, and then through the
    one the first run left in the slot, which goes on from its old
    counter 3, so the label shows [File #1], [File #3], [File #2],
    [File #4], and the one on display while the stage runs is the old
    object's. *)
Theorem C7_ordinals_interleave_in_a_later_run :
  let W := demo RaiseKeyError in
  let once := (@on_run W two_files (first_read two_files)).2 in
  let first_run := (@prepare W two_files (first_read two_files)).2 in
  let later_run := (@prepare W two_files once).2 in
  let stage_calls := @run_pipeline W (once_per_item DiffeoImage_getdiffeo 1 2) in
  labels_shown "-PBARLABEL-" (effects_of stage_calls first_run)
  = ["File #1: Generating diffeomorphic flow field...";
     "File #2: Generating diffeomorphic flow field..."] ∧
  file_count later_run !! 5%nat = Some 1 ∧
  file_count later_run !! 1%nat = Some 3 ∧
  labels_shown "-PBARLABEL-" (effects_of stage_calls later_run)
  = ["File #1: Generating diffeomorphic flow field...";
     "File #3: Generating diffeomorphic flow field...";
     "File #2: Generating diffeomorphic flow field...";
     "File #4: Generating diffeomorphic flow field..."].
Proof. repeat split; by vm_compute. Qed.

(** C8. Instrumentor transparency fails on keyword arguments: the stage
    slot [_getdiffeo] as the handler instruments it, called with the
    keyword argument [upscale=True], raises [TypeError] from the wrapper's
    own [print] and never calls the wrapped function, which on the same
    call returns normally when it is not instrumented. *)
Theorem C8_keyword_argument_stops_the_call :
  let W := spec_world (λ _, true) (λ _, RaiseKeyError) in
  let kw := [("upscale", VBool true)] in
  let σ := (install 2 initial_state).2 in
  let instrumented :=
    @call_method W (class_attr σ DiffeoImage_getdiffeo) (VObj 1) [] kw σ in
  (@call_method W (class_attr initial_state DiffeoImage_getdiffeo)
     (VObj 1) [] kw initial_state).1 = Ok VNone ∧
  instrumented.1 = Raise TypeError ∧
  forallb (λ e, negb (is_call e)) (trace instrumented.2) = true.
Proof. vm_compute. done. Qed.

(** C9. Precondition rejection: with the input field or the output field
    empty, the handler shows the message of that case (in red) and is
    done: the accumulator stays 0, no ProgressUpdater is built, no class
    attribute is rebound, and the effects are the debug [print] and the
    update of the error text, so the pipeline entry point is not
    entered. The three messages differ from one another. *)
Theorem C9_precondition_rejection `{!External} (values : Values) (σ : State) :
  INPUTS values = "" ∨ OUTPUT values = "" →
  is_Some (window σ !! "-ERROR-") →
  current_progress σ = 0 →
  ∃ σ',
    on_run values σ = (Ok (), σ') ∧
    value <$> window σ' !! "-ERROR-" = Some (refusal values) ∧
    text_color <$> window σ' !! "-ERROR-" = Some "red" ∧
    current_progress σ' = 0 ∧
    file_count σ' = file_count σ ∧
    allocated σ' = allocated σ ∧
    class_attr σ' = class_attr σ ∧
    trace σ' = trace σ ++ [EPrint None;
                           EUpdate "-ERROR-"
                             (upd_value_color (refusal values) "red")] ∧
    error_both ≠ error_inputs ∧ error_both ≠ error_output ∧
    error_inputs ≠ error_output.
Proof.
  intros Hempty [e He] Hcp.
  assert (Hrun : on_run values σ
                 = window_update "-ERROR-"
                     (upd_value_color (refusal values) "red")
                     (emit (EPrint None) σ)).
  { unfold on_run, refusal. unfold bind at 1. simpl.
    destruct (bool_decide (INPUTS values = "")) eqn:Hi;
      destruct (bool_decide (OUTPUT values = "")) eqn:Ho; try done.
    apply bool_decide_eq_false in Hi, Ho. by destruct Hempty. }
  rewrite Hrun. erewrite window_update_present by (simpl; exact He).
  eexists. split; [reflexivity|].
  simpl. rewrite lookup_insert_eq, <- app_assoc. simpl.
  repeat split; done.
Qed.

(** The theorem of C9 on a request with the input field empty. *)
Lemma C9_precondition_rejection_witness :
  let W := demo RaiseKeyError in
  ∃ σ',
    @on_run W no_inputs (first_read no_inputs) = (Ok (), σ') ∧
    value <$> window σ' !! "-ERROR-" = Some error_inputs ∧
    current_progress σ' = 0 ∧
    allocated σ' = 0%nat ∧
    class_attr σ' = StageFunction.
Proof.
  intros W.
  assert (Hempty : INPUTS no_inputs = "" ∨ OUTPUT no_inputs = "")
    by (left; reflexivity).
  assert (Herr : is_Some (window (first_read no_inputs) !! "-ERROR-"))
    by (vm_compute; eauto).
  assert (Hcp : current_progress (first_read no_inputs) = 0) by reflexivity.
  destruct (C9_precondition_rejection (H := W) no_inputs
              (first_read no_inputs) Hempty Herr Hcp)
    as (σ' & Hrun & Hmsg & _ & Hzero & _ & Hal & Hca & _).
  exists σ'. repeat split; try done.
Defined.



(** * Further properties *)

(** ** The window under an instrumented call *)

Lemma print_window args kw σ r σ' :
  print args kw σ = (r, σ') → window σ' = window σ.
Proof.
  unfold print. destruct (print_target kw); intros Hrun; by inversion Hrun.
Qed.

Section WindowFrame.
Context `{!External}.

Lemma window_update_other key u e σ r σ' :
  window σ !! key = Some e →
  window_update key u σ = (r, σ') →
  ∀ k, k ≠ key → window σ' !! k = window σ !! k.
Proof.
  intros He Hrun k Hk. rewrite (window_update_present _ _ _ _ He) in Hrun.
  simplify_eq. simpl. by rewrite lookup_insert_ne.
Qed.

Lemma count_after_value_update (w : gmap string Element) k k' l e c :
  w !! k' = Some e →
  current_count <$> w !! k = Some c →
  current_count <$> <[k' := apply_update (upd_value l) e]> w !! k = Some c.
Proof.
  intros He Hc. destruct (decide (k = k')) as [->|Hne].
  - rewrite lookup_insert_eq. rewrite He in Hc. exact Hc.
  - by rewrite lookup_insert_ne.
Qed.

(** The bookkeeping of a call, with its two elements in the window,
    changes no other element, however far it gets, and leaves the bar
    element displaying the accumulator. *)
Lemma call_instance_window o self func args kw σ r σ' :
  is_Some (window σ !! pbar_key self) →
  is_Some (window σ !! label_key self) →
  call (Updater o self func) args kw σ = (r, σ') →
  ∃ σm,
    (∀ k, k ≠ pbar_key self → k ≠ label_key self →
          window σm !! k = window σ !! k) ∧
    dom (window σm) = dom (window σ) ∧
    current_count <$> window σm !! pbar_key self
    = Some (current_progress σm) ∧
    ((∃ e, r = Raise e ∧ σ' = σm) ∨ call func args kw σm = (r, σ')).
Proof.
  intros [e1 H1] Hlk.
  simpl. unfold ProgressUpdater.__call__. intros Hrun.
  unfold bind at 1 in Hrun. unfold modify at 1 in Hrun.
  unfold bind at 1 in Hrun. unfold gets at 1 in Hrun.
  unfold bind at 1 in Hrun.
  erewrite window_update_present in Hrun by (simpl; exact H1).
  set (σ1 := emit _ _) in Hrun.
  assert (Hw1 : ∀ k, k ≠ pbar_key self → window σ1 !! k = window σ !! k).
  { intros k Hk. simpl. by rewrite lookup_insert_ne. }
  assert (Hd1 : dom (window σ1) = dom (window σ))
    by (simpl; by eapply dom_insert_present).
  assert (Hc1 : current_count <$> window σ1 !! pbar_key self
                = Some (current_progress σ1))
    by (simpl; by rewrite lookup_insert_eq).
  assert (Hlk1 : is_Some (window σ1 !! label_key self))
    by (eapply is_Some_dom; [exact Hd1|exact Hlk]).
  clearbody σ1.
  unfold bind at 1 in Hrun.
  match type of Hrun with
  | context [(if runs_each_file self then ?a else ?b) σ1] =>
      destruct ((if runs_each_file self then a else b) σ1)
        as [[s|e] σ2] eqn:H2
  end.
  2:{ assert (σ2 = σ1) as ->.
      { destruct (runs_each_file self); [|discriminate].
        unfold bind, ProgressUpdater.get_file_count in H2.
        destruct (file_count σ1 !! o); by simplify_eq. }
      simplify_eq. exists σ'.
      split; [intros; by apply Hw1|]. split; [done|]. split; [done|].
      left; by exists e. }
  assert (Hw2 : window σ2 = window σ1 ∧
                current_progress σ2 = current_progress σ1).
  { destruct (runs_each_file self).
    - unfold bind, ProgressUpdater.get_file_count, modify, ret in H2.
      destruct (file_count σ1 !! o); by simplify_eq.
    - unfold ret in H2. by simplify_eq. }
  destruct Hw2 as [Hw2 Hcp2].
  clear H2. destruct Hlk1 as [e2 H2]. rewrite <- Hw2 in H2.
  rewrite <- Hw2, <- Hcp2 in Hc1.
  unfold bind at 1 in Hrun.
  erewrite window_update_present in Hrun by exact H2.
  unfold bind at 1 in Hrun. unfold window_refresh, modify in Hrun.
  unfold bind at 1 in Hrun.
  match type of Hrun with
  | context [print args kw ?τ] =>
      set (σ4 := τ) in Hrun;
      assert (Hw4 : ∀ k, k ≠ pbar_key self → k ≠ label_key self →
                         window σ4 !! k = window σ !! k);
      [|assert (Hd4 : dom (window σ4) = dom (window σ));
        [|assert (Hc4 : current_count <$> window σ4 !! pbar_key self
                        = Some (current_progress σ4))]]
  end.
  { intros k Hpk Hk. subst σ4. simpl.
    rewrite lookup_insert_ne by done. rewrite Hw2. by apply Hw1. }
  { subst σ4. simpl. rewrite (dom_insert_present _ _ _ _ H2).
    by rewrite Hw2. }
  { subst σ4. simpl. by apply count_after_value_update. }
  clearbody σ4.
  destruct (print args kw σ4) as [[[]|e] σ5] eqn:H5.
  - pose proof (print_window _ _ _ _ _ H5) as Hw5.
    apply print_ui in H5 as [_ Hcp5 _].
    exists σ5. rewrite Hw5, Hcp5. by repeat (split; [done|]); right.
  - pose proof (print_window _ _ _ _ _ H5) as Hw5.
    apply print_ui in H5 as [_ Hcp5 _]. simplify_eq.
    exists σ'. rewrite Hw5, Hcp5. repeat (split; [done|]).
    left; by exists e.
Qed.

Lemma call_window_other c :
  ∀ args kw σ,
    (∀ k, k ∈ keys c → is_Some (window σ !! k)) →
    ∀ k, k ∉ keys c → window (call c args kw σ).2 !! k = window σ !! k.
Proof.
  induction c as [f | o self func IH | c IH x]; intros args kw σ Hkeys k Hk.
  - reflexivity.
  - simpl in Hkeys, Hk.
    apply not_elem_of_cons in Hk as [Hpk Hk].
    apply not_elem_of_cons in Hk as [Hlk Hk].
    destruct (call (Updater o self func) args kw σ) as [r σ'] eqn:Hrun.
    assert (Hp : is_Some (window σ !! pbar_key self))
      by (apply Hkeys, elem_of_cons; by left).
    assert (Hl : is_Some (window σ !! label_key self))
      by (apply Hkeys, elem_of_cons; right; apply elem_of_cons; by left).
    destruct (call_instance_window _ _ _ _ _ _ _ _ Hp Hl Hrun)
      as (σm & Hother & Hdom & _ & Hcase).
    simpl. destruct Hcase as [(e & _ & ->) | Hfunc]; [by apply Hother|].
    assert (Hkeys' : ∀ k', k' ∈ keys func → is_Some (window σm !! k')).
    { intros k' Hk'. eapply is_Some_dom; [exact Hdom|].
      apply Hkeys, elem_of_cons; right; apply elem_of_cons; by right. }
    specialize (IH args kw σm Hkeys' k Hk). rewrite Hfunc in IH.
    simpl in IH. rewrite IH. by apply Hother.
  - simpl. by apply IH.
Qed.

Lemma keys_getattr_class c : keys (getattr_class c) = keys c.
Proof. by destruct c. Qed.

Lemma call_method_window_other c instance args kw σ :
  (∀ k, k ∈ keys c → is_Some (window σ !! k)) →
  ∀ k, k ∉ keys c →
       window (call_method c instance args kw σ).2 !! k = window σ !! k.
Proof.
  intros Hkeys k Hk. destruct c; simpl call_method.
  - reflexivity.
  - unfold ProgressUpdater.__get__.
    by apply (call_window_other (Partial (Updater o self c) instance)).
  - by apply (call_window_other (Partial c x)).
Qed.

Lemma handler_keyed_keys c :
  handler_keyed c = true → ∀ k, k ∈ keys c → k = "-PBAR-" ∨ k = "-PBARLABEL-".
Proof.
  induction c as [f | o self func IH | c IH x]; simpl; intros Hc k Hk.
  - by apply elem_of_nil in Hk.
  - apply andb_prop in Hc as [Hc Hfunc]. apply andb_prop in Hc as [Hp Hl].
    apply bool_decide_eq_true in Hp, Hl.
    apply elem_of_cons in Hk as [->|Hk]; [by left|].
    apply elem_of_cons in Hk as [->|Hk]; [by right|]. by apply IH.
  - by apply IH.
Qed.

(** A pipeline run against slots that all hold callables with the
    handler's keys changes no element but the bar and its label. *)
Lemma run_pipeline_window_other p :
  ∀ σ,
    (∀ s, handler_keyed (class_attr σ s) = true) →
    is_Some (window σ !! "-PBAR-") →
    is_Some (window σ !! "-PBARLABEL-") →
    ∀ k, k ≠ "-PBAR-" → k ≠ "-PBARLABEL-" →
         window (run_pipeline p σ).2 !! k = window σ !! k.
Proof.
  induction p as [r0 | s instance args kw next IH];
    intros σ Hkeyed Hp Hl k Hkp Hkl.
  - reflexivity.
  - simpl.
    destruct (call_method (class_attr σ s) instance args kw σ)
      as [r σ1] eqn:Hcall.
    pose proof (call_method_ext _ _ _ _ _ _ _ Hcall) as Hext.
    assert (Hpresent : ∀ k', k' ∈ keys (class_attr σ s) →
                             is_Some (window σ !! k')).
    { intros k' Hk'.
      by destruct (handler_keyed_keys _ (Hkeyed s) k' Hk') as [->| ->]. }
    assert (Hout : k ∉ keys (class_attr σ s)).
    { intros Hin.
      by destruct (handler_keyed_keys _ (Hkeyed s) k Hin) as [->| ->]. }
    pose proof (call_method_window_other _ instance args kw _ Hpresent k Hout)
      as Hsame.
    rewrite Hcall in Hsame. simpl in Hsame.
    rewrite <- Hsame.
    apply IH; [|eapply is_Some_dom; [apply Hext|done]..|done|done].
    intros s'. by rewrite (ext_class_attr _ _ _ Hext).
Qed.

End WindowFrame.

(** ** The window through the handler *)

Lemma wrap_window `{!External} s weight N label b σ r σ' :
  wrap s weight N label b σ = (r, σ') →
  window σ' = window σ ∧ current_progress σ' = current_progress σ ∧
  trace σ' = trace σ.
Proof.
  unfold wrap, ProgressUpdater.__init__, ProgressUpdater.floor_div, setattr,
    bind, gets, modify, ret, raise, lift.
  destruct b; simpl;
    [destruct (decide (N = 0));
     [|destruct (decide (0 ≤ weight ≤ 100)); [|destruct (float_floor weight N)]]
    |]; intros Hrun; by simplify_eq.
Qed.

Lemma install_window `{!External} N σ r σ' :
  install N σ = (r, σ') →
  window σ' = window σ ∧ current_progress σ' = current_progress σ ∧
  trace σ' = trace σ.
Proof.
  unfold install. intros Hrun.
  unfold bind at 1 in Hrun.
  destruct (wrap DiffeoImage_init _ _ _ _ σ) as [[[]|e] σ1] eqn:H1;
    apply wrap_window in H1 as (Hw1 & Hc1 & Ht1);
    [|simplify_eq; by rewrite Hw1, Hc1, Ht1].
  unfold bind at 1 in Hrun.
  destruct (wrap DiffeoImage_getdiffeo _ _ _ _ σ1) as [[[]|e] σ2] eqn:H2;
    apply wrap_window in H2 as (Hw2 & Hc2 & Ht2);
    [|simplify_eq; by rewrite Hw2, Hc2, Ht2, Hw1, Hc1, Ht1].
  unfold bind at 1 in Hrun.
  destruct (wrap DiffeoImage_interpolate_image _ _ _ _ σ2)
    as [[[]|e] σ3] eqn:H3;
    apply wrap_window in H3 as (Hw3 & Hc3 & Ht3);
    [|simplify_eq; by rewrite Hw3, Hc3, Ht3, Hw2, Hc2, Ht2, Hw1, Hc1, Ht1].
  apply wrap_window in Hrun as (Hw4 & Hc4 & Ht4).
  by rewrite Hw4, Hc4, Ht4, Hw3, Hc3, Ht3, Hw2, Hc2, Ht2, Hw1, Hc1, Ht1.
Qed.

Section HandlerWindow.
Context `{!External}.

Lemma window_update_alter key u σ :
  is_Some (window σ !! key) →
  window_update key u σ
  = (Ok (), emit (EUpdate key u)
              (set_window (alter (apply_update u) key (window σ)) σ)).
Proof.
  intros [e He]. rewrite (window_update_present _ _ _ _ He).
  do 3 f_equal. apply map_eq. intros k.
  destruct (decide (k = key)) as [->|Hk].
  - by rewrite lookup_insert_eq, lookup_alter_eq, He.
  - by rewrite lookup_insert_ne, lookup_alter_ne.
Qed.

(** The window that the steps from "Clear error" to the last wrap leave,
    whether the conversions of the two numbers succeed or not. *)
Lemma prepare_window values σ r ρ :
  is_Some (window σ !! "-ERROR-") →
  is_Some (window σ !! "-PBAR-") →
  is_Some (window σ !! "-PBARLABEL-") →
  prepare values σ = (r, ρ) →
  window ρ
  = alter (apply_update (upd_visible true)) "-PBARLABEL-"
      (alter (apply_update (upd_count_visible 0 true)) "-PBAR-"
         (alter (apply_update (upd_value "")) "-ERROR-" (window σ))).
Proof.
  intros He Hp Hl. unfold prepare.
  unfold bind at 1. rewrite window_update_alter by done.
  unfold bind at 1.
  rewrite window_update_alter by (simpl; by apply lookup_alter_is_Some).
  unfold bind at 1.
  rewrite window_update_alter
    by (simpl; by apply lookup_alter_is_Some, lookup_alter_is_Some).
  unfold int_of.
  destruct (int (MAXDISTORTION values)) as [md|];
    [|unfold bind, raise; intros Hrun; by simplify_eq].
  destruct (int (NSTEPS values)) as [ns|];
    [|unfold bind, raise, ret; intros Hrun; by simplify_eq].
  unfold bind at 1. unfold ret at 1.
  unfold bind at 1. unfold ret at 1.
  unfold bind at 1.
  match goal with
  | |- context [install ?N ?ρ0] =>
      destruct (install N ρ0) as [[[]|e] ρ1] eqn:Hi;
      apply install_window in Hi as (Hw & _ & _)
  end; unfold ret; intros Hrun; simplify_eq; by rewrite Hw.
Qed.

Lemma on_success_window σ :
  is_Some (window σ !! "-PBAR-") →
  is_Some (window σ !! "-PBARLABEL-") →
  ∃ σ',
    on_success σ = (Ok (), σ') ∧
    window σ'
    = alter (apply_update (upd_value "Diffeomorphing complete!")) "-PBARLABEL-"
        (alter (apply_update (upd_count 100)) "-PBAR-" (window σ)) ∧
    class_attr σ' = class_attr σ.
Proof.
  intros Hp Hl. unfold on_success.
  unfold bind at 1. rewrite window_update_alter by done.
  unfold bind at 1.
  rewrite window_update_alter by (simpl; by apply lookup_alter_is_Some).
  eexists. split; [reflexivity|]. done.
Qed.

Lemma teardown_window σ :
  is_Some (window σ !! "-PBAR-") →
  is_Some (window σ !! "-PBARLABEL-") →
  ∃ σ',
    teardown σ = (Ok (), σ') ∧
    window σ'
    = alter (apply_update (upd_value_visible "" false)) "-PBARLABEL-"
        (alter (apply_update (upd_count_visible 0 false)) "-PBAR-" (window σ)) ∧
    current_progress σ' = 0.
Proof.
  intros Hp Hl. unfold teardown.
  unfold bind at 1. rewrite window_update_alter by done.
  unfold bind at 1.
  rewrite window_update_alter by (simpl; by apply lookup_alter_is_Some).
  eexists. split; [reflexivity|]. done.
Qed.

End HandlerWindow.

(** ** The bar and the accumulator *)

Section BarFacts.
Context `{!External}.

Lemma call_bar_shows_progress c :
  ∀ args kw σ,
    handler_keyed c = true →
    is_Some (window σ !! "-PBAR-") →
    is_Some (window σ !! "-PBARLABEL-") →
    bar_shows_progress σ →
    bar_shows_progress (call c args kw σ).2.
Proof.
  induction c as [f | o self func IH | c IH x];
    intros args kw σ Hc Hp Hl Hbar.
  - exact Hbar.
  - simpl in Hc. apply andb_prop in Hc as [Hc Hfunc].
    apply andb_prop in Hc as [Hpk Hlk].
    apply bool_decide_eq_true in Hpk, Hlk.
    destruct (call (Updater o self func) args kw σ) as [r σ'] eqn:Hrun.
    apply call_instance_window in Hrun
      as (σm & _ & Hdom & Hcount & Hcase); [|by rewrite ?Hpk, ?Hlk..].
    rewrite Hpk in Hcount. simpl.
    destruct Hcase as [(e & _ & ->) | Hfunc']; [exact Hcount|].
    specialize (IH args kw σm Hfunc). rewrite Hfunc' in IH.
    apply IH; [eapply is_Some_dom; [exact Hdom|done]..|exact Hcount].
  - simpl. by apply IH.
Qed.

Lemma call_method_bar_shows_progress c instance args kw σ :
  handler_keyed c = true →
  is_Some (window σ !! "-PBAR-") →
  is_Some (window σ !! "-PBARLABEL-") →
  bar_shows_progress σ →
  bar_shows_progress (call_method c instance args kw σ).2.
Proof.
  intros Hc Hp Hl Hbar. destruct c; simpl call_method.
  - exact Hbar.
  - by apply (call_bar_shows_progress (Partial (Updater o self c) instance)).
  - by apply (call_bar_shows_progress (Partial c x)).
Qed.

Lemma run_pipeline_bar_shows_progress p :
  ∀ σ,
    (∀ s, handler_keyed (class_attr σ s) = true) →
    is_Some (window σ !! "-PBAR-") →
    is_Some (window σ !! "-PBARLABEL-") →
    bar_shows_progress σ →
    bar_shows_progress (run_pipeline p σ).2.
Proof.
  induction p as [r0 | s instance args kw next IH];
    intros σ Hkeyed Hp Hl Hbar.
  - exact Hbar.
  - simpl.
    pose proof (call_method_bar_shows_progress (class_attr σ s) instance
                  args kw σ (Hkeyed s) Hp Hl Hbar) as Hstep.
    destruct (call_method (class_attr σ s) instance args kw σ)
      as [r σ1] eqn:Hcall.
    pose proof (call_method_ext _ _ _ _ _ _ _ Hcall) as Hext.
    apply IH; [|eapply is_Some_dom; [apply Hext|done]..|exact Hstep].
    intros s'. by rewrite (ext_class_attr _ _ _ Hext).
Qed.

End BarFacts.

(** ** The handler's keys in the slots *)

Lemma handler_keyed_getattr_class c :
  handler_keyed (getattr_class c) = handler_keyed c.
Proof. by destruct c. Qed.

Lemma handler_keyed_unwrap c :
  handler_keyed c = true → handler_keyed (unwrap c) = true.
Proof.
  induction c as [f | o self func IH | c IH x]; simpl; intros Hc; try done.
  apply andb_prop in Hc as [_ Hfunc]. by apply IH.
Qed.

Lemma install_keyed `{!External} N σ ρ :
  N ≠ 0 →
  (∀ s, handler_keyed (class_attr σ s) = true) →
  install N σ = (Ok (), ρ) →
  ∀ s, handler_keyed (class_attr ρ s) = true.
Proof.
  intros HN Hkeyed Hrun s.
  destruct (install_ok N σ HN)
    as (ρ' & Hrun' & Hi & Hg & Hp & Hs & Hd & _).
  rewrite Hrun in Hrun'. simplify_eq.
  destruct s; rewrite ?Hi, ?Hg, ?Hp, ?Hs, ?Hd; simpl;
    rewrite ?handler_keyed_getattr_class; apply Hkeyed.
Qed.

Lemma teardown_keyed `{!External} σ σ' :
  is_Some (window σ !! "-PBAR-") →
  is_Some (window σ !! "-PBARLABEL-") →
  (∀ s, handler_keyed (class_attr σ s) = true) →
  teardown σ = (Ok (), σ') →
  ∀ s, handler_keyed (class_attr σ' s) = true.
Proof.
  intros Hp Hl Hkeyed Hrun s.
  destruct (teardown_ok σ Hp Hl)
    as (τ & Hrun' & _ & _ & Hi & Hg & Hpi & Hs & Hd & _).
  rewrite Hrun in Hrun'. simplify_eq.
  destruct s; rewrite ?Hi, ?Hg, ?Hpi, ?Hs, ?Hd;
    try apply handler_keyed_unwrap;
    rewrite ?handler_keyed_getattr_class; apply Hkeyed.
Qed.

(** ** A run, step by step *)

Section RunSteps.
Context `{!External}.

Lemma print_debug_run σ : print_debug σ = (Ok (), emit (EPrint None) σ).
Proof. reflexivity. Qed.

(** With both numbers readable, the steps before the [try] statement
    end normally, the last of them being the install for as many files
    as the input field has parts. *)
Lemma prepare_valid values σ maxdistortion nsteps :
  is_Some (window σ !! "-ERROR-") →
  is_Some (window σ !! "-PBAR-") →
  is_Some (window σ !! "-PBARLABEL-") →
  int (MAXDISTORTION values) = Some maxdistortion →
  int (NSTEPS values) = Some nsteps →
  ∃ σ3 ρ,
    prepare values σ
    = (Ok (split ";"%char (INPUTS values), OUTPUT values, maxdistortion,
           nsteps, SAVE_STEPS values, negb (NO_UPSCALING values)), ρ) ∧
    install (Z.of_nat (length (split ";"%char (INPUTS values)))) σ3
    = (Ok (), ρ) ∧
    class_attr σ3 = class_attr σ ∧
    allocated σ3 = allocated σ ∧
    file_count σ3 = file_count σ ∧
    current_progress σ3 = current_progress σ.
Proof.
  intros He Hp Hl Hmd Hns. unfold prepare.
  unfold bind at 1. rewrite window_update_alter by done.
  unfold bind at 1.
  rewrite window_update_alter by (simpl; by apply lookup_alter_is_Some).
  unfold bind at 1.
  rewrite window_update_alter
    by (simpl; by apply lookup_alter_is_Some, lookup_alter_is_Some).
  unfold int_of. rewrite Hmd, Hns.
  unfold bind at 1. unfold ret at 1.
  unfold bind at 1. unfold ret at 1.
  unfold bind at 1.
  pose proof (split_length ";"%char (INPUTS values)) as Hlen.
  match goal with
  | |- context [install ?N ?ρ0] =>
      destruct (install_ok N ρ0 ltac:(lia)) as (ρ & Hrun & _);
      exists ρ0, ρ
  end.
  rewrite Hrun. by repeat split.
Qed.

Lemma try_body_frame inputs output_dir maxdistortion nsteps save_steps upscale
    ρ r τ :
  (∀ s, handler_keyed (class_attr ρ s) = true) →
  is_Some (window ρ !! "-PBAR-") →
  is_Some (window ρ !! "-PBARLABEL-") →
  try_body inputs output_dir maxdistortion nsteps save_steps upscale ρ
  = (r, τ) →
  (∀ k, k ≠ "-PBAR-" → k ≠ "-PBARLABEL-" → window τ !! k = window ρ !! k) ∧
  dom (window τ) = dom (window ρ) ∧
  class_attr τ = class_attr ρ ∧
  (bar_shows_progress ρ → bar_shows_progress τ).
Proof.
  intros Hkeyed Hp Hl. unfold try_body.
  unfold bind at 1. rewrite print_debug_run.
  unfold bind at 1. unfold modify at 1.
  set (ρ2 := emit ERunDiffeomorph _).
  set (p := run_diffeomorph _ _ _ _ _ _).
  intros Hrun.
  pose proof (run_pipeline_ext _ _ _ _ Hrun) as Hext.
  pose proof (run_pipeline_window_other p ρ2 Hkeyed Hp Hl) as Hother.
  pose proof (run_pipeline_bar_shows_progress p ρ2 Hkeyed Hp Hl) as Hbar.
  rewrite Hrun in Hother, Hbar. simpl in Hother, Hbar.
  repeat split; [exact Hother|apply Hext|apply Hext|exact Hbar].
Qed.

Lemma run_after_prepare values σ a ρ :
  INPUTS values ≠ "" → OUTPUT values ≠ "" →
  prepare values (emit (EPrint None) σ) = (Ok a, ρ) →
  pipeline_outcome values σ = (try_body_with a ρ).1 ∧
  on_run values σ = try_finally (attempt_with a) teardown ρ.
Proof.
  intros Hi Ho Hprep. rewrite on_run_valid by done.
  unfold pipeline_outcome, bind. by rewrite print_debug_run, Hprep.
Qed.

End RunSteps.

(** ** The accumulator over a pipeline run *)

Lemma times_cons s a l :
  times s (a :: l) = (if decide (a = s) then 1 else 0) + times s l.
Proof.
  unfold times. rewrite filter_cons.
  destruct (decide (a = s)); simpl length; lia.
Qed.

Lemma times_nonneg s l : 0 ≤ times s l.
Proof. unfold times. lia. Qed.

Lemma total_by_slot N l :
  total (map (slot_increment N) l)
  = times DiffeoImage_init l * ProgressUpdater.floor_quotient 5 N
    + times DiffeoImage_getdiffeo l * ProgressUpdater.floor_quotient 25 N
    + times DiffeoImage_interpolate_image l * ProgressUpdater.floor_quotient 65 N
    + times DiffeoImageDir_save l * 5.
Proof.
  induction l as [|a l IH]; [reflexivity|].
  cbn [map total foldr]. fold (total (map (slot_increment N) l)).
  rewrite IH, !times_cons. destruct a; simpl; lia.
Qed.

Section Accounting.
Context `{!External}.

Lemma call_method_plain_progress c instance args kw σ :
  plain c = true →
  current_progress (call_method c instance args kw σ).2 = current_progress σ.
Proof.
  intros Hp. destruct c as [f | o self func | c x]; [done|done|].
  change (call_method (Partial c x) instance args kw σ)
    with (call (Partial c x) args kw σ).
  destruct (call_plain (Partial c x) Hp args kw σ) as (f & args' & ->).
  reflexivity.
Qed.

Lemma call_method_instance_progress o self func instance args kw σ :
  plain func = true →
  current_progress (call_method (Updater o self func) instance args kw σ).2
  = current_progress σ + increment_value self.
Proof. intros Hp. simpl call_method. by apply call_instance_progress. Qed.

(** The slots as the install for [N] files leaves them when they held
    the pipeline's own functions: one invocation of slot [s] advances the
    accumulator by [slot_increment N s], however it ends. *)
Lemma install_plain_progress N σ ρ :
  N ≠ 0 →
  (∀ s, plain (class_attr σ s) = true) →
  install N σ = (Ok (), ρ) →
  ∀ s instance args kw τ,
    current_progress (call_method (class_attr ρ s) instance args kw τ).2
    = current_progress τ + slot_increment N s.
Proof.
  intros HN Hplain Hrun s instance args kw τ.
  destruct (install_ok N σ HN)
    as (ρ' & Hrun' & Hi & Hg & Hp & Hs & Hd & _).
  rewrite Hrun in Hrun'. simplify_eq.
  assert (Hget : ∀ s', plain (getattr_class (class_attr σ s')) = true).
  { intros s'. specialize (Hplain s'). by destruct (class_attr σ s'). }
  destruct s; rewrite ?Hi, ?Hg, ?Hp, ?Hs, ?Hd;
    rewrite ?call_method_instance_progress by apply Hget; try done.
  rewrite call_method_plain_progress by apply Hplain. simpl. lia.
Qed.

Lemma run_pipeline_accounting N (slots : slot → callable) p :
  (∀ s instance args kw τ,
     current_progress (call_method (slots s) instance args kw τ).2
     = current_progress τ + slot_increment N s) →
  ∀ τ, class_attr τ = slots →
       current_progress (run_pipeline p τ).2
       = current_progress τ + total (map (slot_increment N) (invoked p τ)).
Proof.
  intros Hstep.
  induction p as [r0 | s instance args kw next IH]; intros τ Hslots.
  - simpl. unfold total. simpl. lia.
  - simpl. specialize (Hstep s instance args kw τ). rewrite <- Hslots in Hstep.
    destruct (call_method (class_attr τ s) instance args kw τ)
      as [r τ1] eqn:Hcall.
    pose proof (call_method_ext _ _ _ _ _ _ _ Hcall) as Hext.
    simpl in Hstep. cbn [map total foldr].
    fold (total (map (slot_increment N) (invoked (next r) τ1))).
    rewrite IH by (by rewrite (ext_class_attr _ _ _ Hext)). lia.
Qed.

End Accounting.

(** ** Strings of the number fields and of the input field *)

Lemma snoc_char_nonempty p c : snoc_char p c ≠ EmptyString.
Proof. by destruct p. Qed.

Lemma last_char_snoc p c : last_char (snoc_char p c) = Some c.
Proof.
  induction p as [|a p IH]; [reflexivity|].
  simpl. destruct (snoc_char p c) eqn:Hs; [by destruct p|exact IH].
Qed.

Lemma drop_last_snoc p c : drop_last (snoc_char p c) = p.
Proof.
  induction p as [|a p IH]; [reflexivity|].
  simpl. destruct (snoc_char p c) eqn:Hs; [by destruct p|by rewrite IH].
Qed.

Lemma all_digits_snoc p c :
  all_digits (snoc_char p c) = all_digits p && is_digit c.
Proof.
  induction p as [|a p IH]; simpl.
  - by rewrite andb_true_r.
  - rewrite IH. by rewrite andb_assoc.
Qed.

Lemma last_char_None s : last_char s = None → s = EmptyString.
Proof.
  induction s as [|a s IH]; [done|].
  simpl. destruct s; [done|]. intros Hs. by apply IH in Hs.
Qed.

Lemma split_occurrences sep s :
  length (split sep s) = S (occurrences sep s).
Proof.
  induction s as [|a s IH]; [reflexivity|].
  simpl. destruct (decide (a = sep)).
  - simpl. by rewrite IH.
  - destruct (split sep s) as [|w ws]; [discriminate|]. simpl in *. lia.
Qed.

Section RefusedNumbers.
Context `{!External}.

(** With a number that [int] refuses, the steps before the [try]
    statement stop at the conversion: the three updates are done,
    nothing is installed. *)
Lemma prepare_unreadable values σ :
  is_Some (window σ !! "-ERROR-") →
  is_Some (window σ !! "-PBAR-") →
  is_Some (window σ !! "-PBARLABEL-") →
  int (MAXDISTORTION values) = None ∨ int (NSTEPS values) = None →
  ∃ ρ,
    prepare values σ = (Raise ValueError, ρ) ∧
    class_attr ρ = class_attr σ ∧
    allocated ρ = allocated σ ∧
    file_count ρ = file_count σ ∧
    current_progress ρ = current_progress σ ∧
    trace ρ = trace σ ++ [EUpdate "-ERROR-" (upd_value "");
                          EUpdate "-PBAR-" (upd_count_visible 0 true);
                          EUpdate "-PBARLABEL-" (upd_visible true)].
Proof.
  intros He Hp Hl Hint. unfold prepare.
  unfold bind at 1. rewrite window_update_alter by done.
  unfold bind at 1.
  rewrite window_update_alter by (simpl; by apply lookup_alter_is_Some).
  unfold bind at 1.
  rewrite window_update_alter
    by (simpl; by apply lookup_alter_is_Some, lookup_alter_is_Some).
  unfold int_of.
  destruct (int (MAXDISTORTION values)) as [md|].
  - destruct Hint as [|Hns]; [done|]. rewrite Hns.
    unfold bind, ret, raise. eexists. split; [reflexivity|].
    simpl. rewrite <- !app_assoc. by repeat split.
  - unfold bind, raise. eexists. split; [reflexivity|].
    simpl. rewrite <- !app_assoc. by repeat split.
Qed.

End RefusedNumbers.

(** ** What the install leaves in a slot *)

(** The install for [N] files puts into every slot it wraps a new
    ProgressUpdater with the handler's keys and the slot's increment
    around what the class lookup of the slot gave; a per-item one has
    its counter at 1; objects built earlier keep their counters. *)
Lemma install_slot `{!External} N ρ ρ' s :
  N ≠ 0 →
  s ≠ DiffeoImageDir_init →
  install N ρ = (Ok (), ρ') →
  ∃ o self,
    class_attr ρ' s = Updater o self (getattr_class (class_attr ρ s)) ∧
    (allocated ρ ≤ o)%nat ∧
    pbar_key self = "-PBAR-" ∧
    label_key self = "-PBARLABEL-" ∧
    increment_value self = slot_increment N s ∧
    (runs_each_file self = true → file_count ρ' !! o = Some 1) ∧
    (∀ o', (o' < allocated ρ)%nat → file_count ρ' !! o' = file_count ρ !! o') ∧
    window ρ' = window ρ ∧
    current_progress ρ' = current_progress ρ ∧
    trace ρ' = trace ρ.
Proof.
  intros HN Hs Hrun.
  destruct (install_ok N ρ HN)
    as (τ & Hrun' & Hi & Hg & Hp & Hsv & _ & Hfc & _ & Hcp & Hw & Htr).
  rewrite Hrun in Hrun'. simplify_eq.
  assert (Hold : ∀ o', (o' < allocated ρ)%nat →
                       file_count τ !! o' = file_count ρ !! o').
  { intros o' Ho'. rewrite Hfc. rewrite !lookup_insert_ne by lia. done. }
  destruct s; try done; eexists _, _;
    (split; [first [exact Hi | exact Hg | exact Hp | exact Hsv]|]);
    simpl; (split; [lia|]); do 3 (split; [done|]);
    (split; [|done]); intros Hmode; rewrite Hfc.
  - rewrite !lookup_insert_ne by lia. by rewrite lookup_insert_eq.
  - rewrite lookup_insert_ne by lia. by rewrite lookup_insert_eq.
  - by rewrite lookup_insert_eq.
  - discriminate.
Qed.

Section Nested.
Context `{!External}.

(** A ProgressUpdater around the partial object that the class lookup
    made of another one: a method call does the bookkeeping of both and
    enters the function with [None] in front of the instance. *)
Lemma call_method_nested o1 o2 self1 self2 f instance args σ n1 n2 :
  o1 ≠ o2 →
  pbar_key self1 = "-PBAR-" → label_key self1 = "-PBARLABEL-" →
  pbar_key self2 = "-PBAR-" → label_key self2 = "-PBARLABEL-" →
  is_Some (window σ !! "-PBAR-") →
  is_Some (window σ !! "-PBARLABEL-") →
  (runs_each_file self1 = true → file_count σ !! o1 = Some n1) →
  (runs_each_file self2 = true → file_count σ !! o2 = Some n2) →
  ∃ σ',
    call_method
      (Updater o2 self2 (Partial (Updater o1 self1 (StageFunction f)) VNone))
      instance args [] σ
    = (stage f (VNone :: instance :: args) [] (length (trace σ) + 8), σ') ∧
    current_progress σ'
    = current_progress σ + increment_value self2 + increment_value self1 ∧
    trace σ'
    = trace σ
      ++ (bookkeeping self2 (current_progress σ) n2 ++ [EPrint None]
          ++ bookkeeping self1 (current_progress σ + increment_value self2) n1
          ++ [EPrint None])
      ++ [ECall f (VNone :: instance :: args) []].
Proof.
  intros Hne Hp1 Hl1 Hp2 Hl2 Hp Hl Hn1 Hn2.
  change (call_method (Updater o2 self2 ?c) instance args [] σ)
    with (call (Updater o2 self2 c) (instance :: args) [] σ).
  destruct (call_instance_ok o2 self2
              (Partial (Updater o1 self1 (StageFunction f)) VNone)
              (instance :: args) [] σ n2 None)
    as (σm & Hcall & Htr & Hcp & Hfc & _ & _ & Hdom);
    [by rewrite Hp2|by rewrite Hl2|exact Hn2|reflexivity|].
  rewrite Hcall.
  change (call (Partial ?c VNone) (instance :: args) [] σm)
    with (call c (VNone :: instance :: args) [] σm).
  destruct (call_instance_ok o1 self1 (StageFunction f)
              (VNone :: instance :: args) [] σm n1 None)
    as (σk & Hcall' & Htr' & Hcp' & _ & _ & _ & _).
  - rewrite Hp1. by eapply is_Some_dom.
  - rewrite Hl1. by eapply is_Some_dom.
  - intros Hr. rewrite Hfc.
    destruct (runs_each_file self2); [|by apply Hn1].
    rewrite lookup_insert_ne by done. by apply Hn1.
  - reflexivity.
  - rewrite Hcall'. eexists. split; [|split].
    + simpl. unfold bind, gets, modify, lift. simpl. do 2 f_equal.
      rewrite Htr', Htr. rewrite !length_app. simpl. lia.
    + simpl. lia.
    + simpl. rewrite Htr', Htr, Hcp. rewrite <- !app_assoc. reflexivity.
Qed.

End Nested.

(** ** The window between events *)

Lemma idle_present σ k :
  idle σ → is_Some (layout !! k) → is_Some (window σ !! k).
Proof.
  intros Hidle Hk. apply elem_of_dom. rewrite (idle_elements _ Hidle).
  by apply elem_of_dom.
Qed.

Lemma idle_alter_other σ σ' f k :
  idle σ →
  k ≠ "-PBAR-" → k ≠ "-PBARLABEL-" →
  window σ' = alter f k (window σ) →
  current_progress σ' = current_progress σ →
  idle σ'.
Proof.
  intros [Hcp Hcount Hbar Hlabel Hdom] Hkb Hkl Hw Hcp'.
  split; rewrite ?Hw, ?Hcp', ?dom_alter_L, ?lookup_alter_ne by done; done.
Qed.

Lemma typed_idle values σ :
  idle σ → idle (set_window (typed values (window σ)) σ).
Proof.
  intros [Hcp Hcount Hbar Hlabel Hdom]. unfold typed.
  split; simpl; rewrite ?dom_alter_L, ?lookup_alter_ne by done; done.
Qed.

Lemma initial_state_idle : idle initial_state.
Proof. split; reflexivity. Qed.

Section IdleFacts.
Context `{!External}.

Lemma teardown_idle τ :
  dom (window τ) = dom layout →
  ∃ σ', teardown τ = (Ok (), σ') ∧ idle σ'.
Proof.
  intros Hdom.
  assert (Hp : is_Some (window τ !! "-PBAR-"))
    by (apply elem_of_dom; rewrite Hdom; apply elem_of_dom; vm_compute; eauto).
  assert (Hl : is_Some (window τ !! "-PBARLABEL-"))
    by (apply elem_of_dom; rewrite Hdom; apply elem_of_dom; vm_compute; eauto).
  destruct (teardown_window τ Hp Hl) as (σ' & Hrun & Hw & Hcp).
  exists σ'. split; [exact Hrun|].
  destruct Hp as [eb Hb], Hl as [el Hel].
  split; rewrite ?Hw, ?dom_alter_L; try done.
  - rewrite lookup_alter_ne by done. by rewrite lookup_alter_eq, Hb.
  - rewrite lookup_alter_ne by done. by rewrite lookup_alter_eq, Hb.
  - rewrite lookup_alter_eq. rewrite lookup_alter_ne by done. by rewrite Hel.
Qed.

Lemma on_run_idle values σ σ' :
  idle σ → on_run values σ = (Ok (), σ') → idle σ'.
Proof.
  intros Hidle. unfold on_run. unfold bind at 1. rewrite print_debug_run.
  assert (Hidle0 : idle (emit (EPrint None) σ)) by (by destruct Hidle).
  assert (He : is_Some (window (emit (EPrint None) σ) !! "-ERROR-"))
    by (apply (idle_present σ); [done|vm_compute; eauto]).
  assert (Hp : is_Some (window (emit (EPrint None) σ) !! "-PBAR-"))
    by (apply (idle_present σ); [done|vm_compute; eauto]).
  assert (Hl : is_Some (window (emit (EPrint None) σ) !! "-PBARLABEL-"))
    by (apply (idle_present σ); [done|vm_compute; eauto]).
  generalize dependent (emit (EPrint None) σ). intros σ0 Hidle0 He Hp Hl.
  destruct (bool_decide (INPUTS values = ""));
    destruct (bool_decide (OUTPUT values = "")); cbn [andb];
    [rewrite window_update_alter by done; intros Hrun; simplify_eq;
     match goal with
     | |- context [EUpdate _ ?u] =>
         by apply (idle_alter_other σ0 _ (apply_update u) "-ERROR-")
     end..|].
  intros Hrun. apply bind_Ok in Hrun as (a & ρ & Hprep & Hfin).
  pose proof (prepare_window values σ0 _ _ He Hp Hl Hprep) as Hw.
  unfold try_finally in Hfin.
  destruct (attempt_with a ρ) as [r τ] eqn:Hatt.
  assert (Hdom : dom (window τ) = dom layout).
  { destruct a as [[[[[inputs output_dir] md] ns] save_steps] upscale].
    apply keeps_attempt in Hatt. rewrite (ext_dom _ _ _ Hatt), Hw.
    rewrite !dom_alter_L. apply Hidle0. }
  destruct (teardown_idle τ Hdom) as (σ'' & Htd & Hidle'').
  rewrite Htd in Hfin. by simplify_eq.
Qed.

Lemma only_digits_idle key text σ σ' :
  idle σ →
  key ≠ "-PBAR-" → key ≠ "-PBARLABEL-" → is_Some (layout !! key) →
  only_digits key text σ = (Ok (), σ') →
  idle σ'.
Proof.
  intros Hidle Hkb Hkl Hk. unfold only_digits.
  destruct (last_char text) as [c|]; [|discriminate].
  destruct (is_digit c).
  - unfold ret. intros Hrun. by simplify_eq.
  - rewrite window_update_alter by (by apply idle_present).
    intros Hrun. simplify_eq.
    by apply (idle_alter_other σ _
                (apply_update (upd_value (drop_last text))) key).
Qed.

Lemma loop_body_idle ev values σ σ' :
  idle σ → loop_body ev values σ = (Ok (), σ') → idle σ'.
Proof.
  intros Hidle. unfold loop_body. intros Hrun.
  apply bind_Ok in Hrun as ([] & σ1 & H1 & Hrun).
  apply bind_Ok in Hrun as ([] & σ2 & H2 & Hrun).
  assert (Hidle1 : idle σ1).
  { destruct (decide (ev = Key "-MAXDISTORTION-")).
    - by eapply only_digits_idle; [exact Hidle|..|exact H1];
        [done|done|vm_compute; eauto].
    - unfold ret in H1. by simplify_eq. }
  assert (Hidle2 : idle σ2).
  { destruct (decide (ev = Key "-NSTEPS-")).
    - by eapply only_digits_idle; [exact Hidle1|..|exact H2];
        [done|done|vm_compute; eauto].
    - unfold ret in H2. by simplify_eq. }
  destruct (decide (ev = Key "Run")).
  - by eapply on_run_idle.
  - unfold ret in Hrun. by simplify_eq.
Qed.

Lemma event_loop_idle reads :
  ∀ σ σ', idle σ → event_loop reads σ = (Ok (), σ') → idle σ'.
Proof.
  induction reads as [|[ev values] rest IH]; intros σ σ' Hidle Hrun.
  - cbn in Hrun. unfold ret in Hrun. by simplify_eq.
  - cbn [event_loop] in Hrun. unfold bind at 1 in Hrun.
    unfold modify at 1 in Hrun.
    apply (typed_idle values) in Hidle.
    destruct ev as [|k].
    + unfold ret in Hrun. by simplify_eq.
    + apply bind_Ok in Hrun as ([] & σ1 & Hbody & Hrest).
      eapply IH; [|exact Hrest]. by eapply loop_body_idle.
Qed.

End IdleFacts.

(** ** A run up to the end of the [try] block *)

Section Tried.
Context `{!External}.

(** A request that passes the checks, with both numbers readable: the
    state in which the [try] block ends, and what the handler does from
    there. *)
Lemma valid_run_tried values σ maxdistortion nsteps :
  INPUTS values ≠ "" →
  OUTPUT values ≠ "" →
  int (MAXDISTORTION values) = Some maxdistortion →
  int (NSTEPS values) = Some nsteps →
  (∀ s, handler_keyed (class_attr σ s) = true) →
  is_Some (window σ !! "-ERROR-") →
  is_Some (window σ !! "-PBAR-") →
  is_Some (window σ !! "-PBARLABEL-") →
  ∃ τ,
    on_run values σ
    = try_finally
        (λ _, match pipeline_outcome values σ with
              | Ok _ => on_success τ
              | Raise e => if decide (e = FileNotFoundError)
                           then on_file_not_found τ else (Raise e, τ)
              end) teardown τ ∧
    dom (window τ) = dom (window σ) ∧
    value <$> window τ !! "-ERROR-" = Some "" ∧
    ∀ k, k ≠ "-PBAR-" → k ≠ "-PBARLABEL-" → k ≠ "-ERROR-" →
         window τ !! k = window σ !! k.
Proof.
  intros Hi Ho Hmd Hns Hkeyed He Hp Hl.
  destruct (prepare_valid values (emit (EPrint None) σ) _ _ He Hp Hl Hmd Hns)
    as (σ3 & ρ & Hprep & Hinst & Hca3 & _).
  pose proof (prepare_window values (emit (EPrint None) σ) _ _ He Hp Hl Hprep)
    as Hwρ.
  simpl in Hwρ.
  destruct (run_after_prepare _ _ _ _ Hi Ho Hprep) as [Hpo Hrun].
  rewrite Hpo, Hrun. clear Hpo Hrun.
  pose proof (split_length ";"%char (INPUTS values)) as Hlen.
  assert (Hkρ : ∀ s, handler_keyed (class_attr ρ s) = true).
  { apply (install_keyed (Z.of_nat (length (split ";"%char (INPUTS values))))
             σ3 ρ); [lia| |exact Hinst].
    intros s. rewrite Hca3. apply Hkeyed. }
  assert (Hpρ : is_Some (window ρ !! "-PBAR-"))
    by (rewrite Hwρ; by do 3 apply lookup_alter_is_Some).
  assert (Hlρ : is_Some (window ρ !! "-PBARLABEL-"))
    by (rewrite Hwρ; by do 3 apply lookup_alter_is_Some).
  simpl try_body_with. unfold try_finally, attempt_with, attempt,
    try_except_else.
  destruct (try_body _ _ _ _ _ _ ρ) as [rt τ] eqn:Htry.
  destruct (try_body_frame _ _ _ _ _ _ _ _ _ Hkρ Hpρ Hlρ Htry)
    as (Hother & Hdom & _ & _).
  exists τ. split; [reflexivity|]. split; [|split].
  - rewrite Hdom, Hwρ. by rewrite !dom_alter_L.
  - rewrite Hother, Hwρ by done. rewrite !lookup_alter_ne by done.
    rewrite lookup_alter_eq. by destruct He as [e ->].
  - intros k H1 H2 H3. rewrite Hother, Hwρ by done.
    by rewrite !lookup_alter_ne.
Qed.

(** The [except] block in a window without an element of key
    [-OUTPUTS-], for each way the library may treat the unknown key. *)
Lemma on_file_not_found_window τ :
  is_Some (window τ !! "-INPUTS-") →
  is_Some (window τ !! "-ERROR-") →
  window τ !! "-OUTPUTS-" = None →
  ∃ σ2,
    on_file_not_found τ
    = (match find_element_missing "-OUTPUTS-" with
       | RaiseKeyError => Raise KeyError
       | _ => Ok ()
       end, σ2) ∧
    window σ2
    = match find_element_missing "-OUTPUTS-" with
      | RaiseKeyError =>
          alter (apply_update (upd_value "")) "-INPUTS-" (window τ)
      | ErrorElement =>
          alter (apply_update (upd_value "ERROR: One or more files not found"))
            "-ERROR-"
            (alter (apply_update (upd_value "")) "-INPUTS-" (window τ))
      | ClosestKey k =>
          alter (apply_update (upd_value "ERROR: One or more files not found"))
            "-ERROR-"
            (alter (apply_update (upd_value "")) k
               (alter (apply_update (upd_value "")) "-INPUTS-" (window τ)))
      end ∧
    EKeyError "-OUTPUTS-" ∈ trace σ2.
Proof.
  intros Hin He Hnone. unfold on_file_not_found.
  unfold bind at 1. rewrite window_update_alter by done.
  unfold bind at 1. unfold window_update at 1. simpl window.
  rewrite lookup_alter_ne by done. rewrite Hnone.
  destruct (find_element_missing "-OUTPUTS-") as [| |k] eqn:Hm.
  - eexists. split; [reflexivity|]. split; [done|].
    simpl. apply elem_of_app. right. apply list_elem_of_singleton. done.
  - rewrite window_update_alter
      by (simpl; by apply lookup_alter_is_Some).
    eexists. split; [reflexivity|]. split; [done|].
    simpl. rewrite !elem_of_app, !list_elem_of_singleton. by left; right.
  - match goal with
    | |- context [alter ?f "-INPUTS-" (window τ) !! k] =>
        destruct (alter f "-INPUTS-" (window τ) !! k) as [ek|] eqn:Hk
    end.
    + rewrite window_update_alter
        by (simpl; by apply lookup_insert_is_Some', lookup_alter_is_Some).
      eexists. split; [reflexivity|]. split.
      * simpl. f_equal. apply map_eq. intros k'.
        destruct (decide (k = k')) as [<-|Hne].
        -- by rewrite lookup_insert_eq, lookup_alter_eq, Hk.
        -- rewrite lookup_insert_ne by done.
           by rewrite (lookup_alter_ne _ _ k k') by done.
      * simpl. rewrite !elem_of_app, !list_elem_of_singleton.
        by left; left; right.
    + rewrite window_update_alter
        by (simpl; by apply lookup_alter_is_Some).
      eexists. split; [reflexivity|]. split.
      * simpl. f_equal. symmetry. apply map_eq. intros k'.
        destruct (decide (k = k')) as [<-|Hne].
        -- by rewrite lookup_alter_eq, Hk.
        -- by rewrite (lookup_alter_ne _ _ k k') by done.
      * simpl. rewrite !elem_of_app, !list_elem_of_singleton.
        by left; right.
Qed.

End Tried.

(** * Further results *)

(** X1. A call through any number of ProgressUpdaters changes only the
    elements that their bar and label keys name: every other element of
    the window is after the call what it was before, whether the call
    returns or raises. *)
Theorem X1_call_changes_only_bar_and_label `{!External}
    (c : callable) (args : list pyval) (kw : kwargs) (σ : State) (k : string) :
  (∀ k', k' ∈ keys c → is_Some (window σ !! k')) →
  k ∉ keys c →
  window (call c args kw σ).2 !! k = window σ !! k.
Proof. intros Hkeys Hk. by apply call_window_other. Qed.

(** The theorem of X1 on the input field during a call of the
    instrumented [_getdiffeo]. *)
Lemma X1_call_changes_only_bar_and_label_witness :
  let W := demo RaiseKeyError in
  let σ := (install 2 (first_read two_files)).2 in
  let c := class_attr σ DiffeoImage_getdiffeo in
  window (@call W c [VObj 1] [] σ).2 !! "-INPUTS-" = window σ !! "-INPUTS-".
Proof.
  intros W σ c. apply (@X1_call_changes_only_bar_and_label W c).
  - intros k' Hk'. vm_compute in Hk'.
    apply elem_of_cons in Hk' as [->|Hk']; [vm_compute; eauto|].
    apply elem_of_cons in Hk' as [->|Hk']; [vm_compute; eauto|].
    by apply elem_of_nil in Hk'.
  - vm_compute. intros Hk.
    apply elem_of_cons in Hk as [Hk|Hk]; [discriminate|].
    apply elem_of_cons in Hk as [Hk|Hk]; [discriminate|].
    by apply elem_of_nil in Hk.
Defined.

(** X2. A run whose pipeline does not raise the missing-file error ends
    with what the pipeline ended with (normally, or with the pipeline's
    exception, which leaves the handler) and with the window as it is
    between runs: accumulator 0, bar at 0 and hidden, label empty and
    hidden, error text empty, every other element as the request left
    it. *)
Theorem X2_run_leaves_the_window_idle `{!External}
    (values : Values) (σ : State) (maxdistortion nsteps : Z) :
  INPUTS values ≠ "" →
  OUTPUT values ≠ "" →
  int (MAXDISTORTION values) = Some maxdistortion →
  int (NSTEPS values) = Some nsteps →
  (∀ s, handler_keyed (class_attr σ s) = true) →
  is_Some (window σ !! "-ERROR-") →
  is_Some (window σ !! "-PBAR-") →
  is_Some (window σ !! "-PBARLABEL-") →
  pipeline_outcome values σ ≠ Raise FileNotFoundError →
  ∃ σ',
    on_run values σ = (passed_on (pipeline_outcome values σ), σ') ∧
    current_progress σ' = 0 ∧
    current_count <$> window σ' !! "-PBAR-" = Some 0 ∧
    visible <$> window σ' !! "-PBAR-" = Some false ∧
    value <$> window σ' !! "-PBARLABEL-" = Some "" ∧
    visible <$> window σ' !! "-PBARLABEL-" = Some false ∧
    value <$> window σ' !! "-ERROR-" = Some "" ∧
    ∀ k, k ≠ "-PBAR-" → k ≠ "-PBARLABEL-" → k ≠ "-ERROR-" →
         window σ' !! k = window σ !! k.
Proof.
  intros Hi Ho Hmd Hns Hkeyed He Hp Hl Hout.
  destruct (prepare_valid values (emit (EPrint None) σ) _ _ He Hp Hl Hmd Hns)
    as (σ3 & ρ & Hprep & Hinst & Hca3 & _).
  pose proof (prepare_window values (emit (EPrint None) σ) _ _ He Hp Hl Hprep)
    as Hwρ.
  simpl in Hwρ.
  destruct (run_after_prepare _ _ _ _ Hi Ho Hprep) as [Hpo Hrun].
  rewrite Hpo in *. rewrite Hrun. clear Hpo Hrun.
  pose proof (split_length ";"%char (INPUTS values)) as Hlen.
  assert (Hkρ : ∀ s, handler_keyed (class_attr ρ s) = true).
  { apply (install_keyed (Z.of_nat (length (split ";"%char (INPUTS values))))
             σ3 ρ); [lia| |exact Hinst].
    intros s. rewrite Hca3. apply Hkeyed. }
  assert (Hpρ : is_Some (window ρ !! "-PBAR-"))
    by (rewrite Hwρ; by do 3 apply lookup_alter_is_Some).
  assert (Hlρ : is_Some (window ρ !! "-PBARLABEL-"))
    by (rewrite Hwρ; by do 3 apply lookup_alter_is_Some).
  simpl try_body_with in *. unfold try_finally, attempt_with, attempt,
    try_except_else.
  destruct (try_body _ _ _ _ _ _ ρ) as [rt τ] eqn:Htry.
  destruct (try_body_frame _ _ _ _ _ _ _ _ _ Hkρ Hpρ Hlρ Htry)
    as (Hother & Hdom & _ & _).
  assert (Hpτ : is_Some (window τ !! "-PBAR-"))
    by (eapply is_Some_dom; [exact Hdom|done]).
  assert (Hlτ : is_Some (window τ !! "-PBARLABEL-"))
    by (eapply is_Some_dom; [exact Hdom|done]).
  assert (Herr : value <$> window τ !! "-ERROR-" = Some "").
  { rewrite Hother, Hwρ by done. rewrite !lookup_alter_ne by done.
    rewrite lookup_alter_eq. by destruct He as [e ->]. }
  assert (Hrest : ∀ k, k ≠ "-PBAR-" → k ≠ "-PBARLABEL-" → k ≠ "-ERROR-" →
                       window τ !! k = window σ !! k).
  { intros k H1 H2 H3. rewrite Hother, Hwρ by done.
    by rewrite !lookup_alter_ne. }
  simpl in Hout |- *.
  assert (∃ σ2, (match rt with
                 | Ok _ => on_success τ
                 | Raise e => if decide (e = FileNotFoundError)
                              then on_file_not_found τ else (Raise e, τ)
                 end) = (passed_on rt, σ2) ∧
                is_Some (window σ2 !! "-PBAR-") ∧
                is_Some (window σ2 !! "-PBARLABEL-") ∧
                ∀ k, k ≠ "-PBAR-" → k ≠ "-PBARLABEL-" →
                     window σ2 !! k = window τ !! k)
    as (σ2 & -> & Hp2 & Hl2 & Hother2).
  { destruct rt as [v|e].
    - destruct (on_success_window τ Hpτ Hlτ) as (σ2 & -> & Hw2 & _).
      exists σ2. rewrite Hw2. split; [done|].
      split; [by do 2 apply lookup_alter_is_Some|].
      split; [by do 2 apply lookup_alter_is_Some|].
      intros k H1 H2. by rewrite !lookup_alter_ne.
    - destruct (decide (e = FileNotFoundError)) as [->|Hne]; [done|].
      by exists τ. }
  destruct (teardown_window σ2 Hp2 Hl2) as (σ' & -> & Hw' & Hcp').
  exists σ'. split; [by destruct rt|]. split; [exact Hcp'|].
  rewrite Hw'. destruct Hp2 as [eb Hb], Hl2 as [el Hel].
  repeat split.
  - rewrite lookup_alter_ne by done. by rewrite lookup_alter_eq, Hb.
  - rewrite lookup_alter_ne by done. by rewrite lookup_alter_eq, Hb.
  - rewrite lookup_alter_eq. rewrite lookup_alter_ne by done. by rewrite Hel.
  - rewrite lookup_alter_eq. rewrite lookup_alter_ne by done. by rewrite Hel.
  - rewrite !lookup_alter_ne by done. by rewrite Hother2.
  - intros k H1 H2 H3. rewrite !lookup_alter_ne by done.
    rewrite Hother2 by done. by apply Hrest.
Qed.

(** The theorem of X2 on a run whose pipeline raises an exception other
    than the missing-file error: the exception leaves the handler, the
    window is idle and the input field still has the request. *)
Lemma X2_run_leaves_the_window_idle_witness :
  let W := failing (OtherError 0) in
  ∃ σ',
    @on_run W two_files (first_read two_files) = (Raise (OtherError 0), σ') ∧
    current_progress σ' = 0 ∧
    visible <$> window σ' !! "-PBAR-" = Some false ∧
    value <$> window σ' !! "-ERROR-" = Some "" ∧
    value <$> window σ' !! "-INPUTS-" = Some "a.png;b.png".
Proof.
  intros W.
  assert (H1 : INPUTS two_files ≠ "") by (vm_compute; discriminate).
  assert (H2 : OUTPUT two_files ≠ "") by (vm_compute; discriminate).
  assert (H3 : @int W (MAXDISTORTION two_files) = Some 80)
    by (vm_compute; reflexivity).
  assert (H4 : @int W (NSTEPS two_files) = Some 20)
    by (vm_compute; reflexivity).
  assert (H5 : ∀ s, handler_keyed (class_attr (first_read two_files) s) = true)
    by (intros s; reflexivity).
  assert (H6 : is_Some (window (first_read two_files) !! "-ERROR-"))
    by (vm_compute; eauto).
  assert (H7 : is_Some (window (first_read two_files) !! "-PBAR-"))
    by (vm_compute; eauto).
  assert (H8 : is_Some (window (first_read two_files) !! "-PBARLABEL-"))
    by (vm_compute; eauto).
  assert (H9 : @pipeline_outcome W two_files (first_read two_files)
               = Raise (OtherError 0)) by (vm_compute; reflexivity).
  assert (H10 : @pipeline_outcome W two_files (first_read two_files)
                ≠ Raise FileNotFoundError) by (rewrite H9; discriminate).
  destruct (X2_run_leaves_the_window_idle (H := W) two_files
              (first_read two_files) 80 20 H1 H2 H3 H4 H5 H6 H7 H8 H10)
    as (σ' & Hrun & Hcp & _ & Hvis & _ & _ & Herr & Hrest).
  exists σ'. rewrite H9 in Hrun.
  split; [exact Hrun|]. split; [exact Hcp|]. split; [exact Hvis|].
  split; [exact Herr|].
  rewrite Hrest; [vm_compute; reflexivity|discriminate..].
Defined.

(** X3. While the pipeline runs, the bar displays the accumulator: if
    the bar element's count equals [ProgressUpdater.current_progress]
    when the pipeline is entered, it does so again after every stage
    call, through any number of ProgressUpdaters built with the
    handler's keys, and however the calls end. *)
Theorem X3_bar_displays_the_accumulator `{!External}
    (p : pipeline) (σ : State) :
  (∀ s, handler_keyed (class_attr σ s) = true) →
  is_Some (window σ !! "-PBAR-") →
  is_Some (window σ !! "-PBARLABEL-") →
  bar_shows_progress σ →
  bar_shows_progress (run_pipeline p σ).2.
Proof. apply run_pipeline_bar_shows_progress. Qed.

(** The theorem of X3 on the pipeline of a run on two files. *)
Lemma X3_bar_displays_the_accumulator_witness :
  let W := demo RaiseKeyError in
  let σ := (@prepare W two_files (first_read two_files)).2 in
  let p := @run_diffeomorph W ["a.png"; "b.png"] "out" 80 20 false true in
  bar_shows_progress (@run_pipeline W p σ).2.
Proof.
  intros W σ p. apply (X3_bar_displays_the_accumulator (H := W) p σ).
  - intros s. destruct s; vm_compute; reflexivity.
  - vm_compute. eauto.
  - vm_compute. eauto.
  - vm_compute. reflexivity.
Defined.

(** X4. Accounting of a first run: when the slots held the pipeline's
    own functions before the install for [N] files, a pipeline run adds
    to the accumulator, for each invocation of a slot and whether that
    invocation returns or raises, the increment of that slot: the floor
    of 5, 25 and 65 over [N] for the per-item stages, 5 for [save],
    nothing for the slot the handler does not wrap. *)
Theorem X4_progress_accounting `{!External}
    (N : Z) (σ ρ τ : State) (p : pipeline) :
  N ≠ 0 →
  (∀ s, plain (class_attr σ s) = true) →
  install N σ = (Ok (), ρ) →
  class_attr τ = class_attr ρ →
  current_progress (run_pipeline p τ).2
  = current_progress τ + total (map (slot_increment N) (invoked p τ)).
Proof.
  intros HN Hplain Hrun Hslots.
  apply (run_pipeline_accounting N (class_attr ρ)); [|exact Hslots].
  by apply (install_plain_progress N σ ρ).
Qed.

(** The theorem of X4 on a run on two files: 2 + 12 + 32 for each file
    and 5 for saving. *)
Lemma X4_progress_accounting_witness :
  let W := demo RaiseKeyError in
  let ρ := (install 2 initial_state).2 in
  let p := @run_diffeomorph W ["a.png"; "b.png"] "out" 80 20 false true in
  current_progress (@run_pipeline W p ρ).2
  = current_progress ρ + total [2; 12; 32; 2; 12; 32; 5].
Proof.
  intros W ρ p.
  apply (X4_progress_accounting (H := W) 2 initial_state ρ ρ p).
  - lia.
  - intros s. reflexivity.
  - vm_compute. reflexivity.
  - reflexivity.
Defined.

(** X5. The bar's maximum is kept in a first run: if the pipeline
    invokes each per-item stage at most once per file and [save] at most
    once, the accumulator never goes down and ends at most 100 above
    where it started, the maximum of the bar when it started at 0. *)
Theorem X5_first_run_stays_within_the_bar `{!External}
    (N : Z) (σ ρ τ : State) (p : pipeline) :
  1 ≤ N →
  (∀ s, plain (class_attr σ s) = true) →
  install N σ = (Ok (), ρ) →
  class_attr τ = class_attr ρ →
  times DiffeoImage_init (invoked p τ) ≤ N →
  times DiffeoImage_getdiffeo (invoked p τ) ≤ N →
  times DiffeoImage_interpolate_image (invoked p τ) ≤ N →
  times DiffeoImageDir_save (invoked p τ) ≤ 1 →
  current_progress τ ≤ current_progress (run_pipeline p τ).2
                     ≤ current_progress τ + 100.
Proof.
  intros HN Hplain Hrun Hslots Hi Hg Hp Hs.
  rewrite (run_pipeline_accounting N (class_attr ρ) p
             (install_plain_progress N σ ρ ltac:(lia) Hplain Hrun) τ Hslots).
  rewrite total_by_slot, !floor_quotient_files by lia.
  pose proof (times_nonneg DiffeoImage_init (invoked p τ)).
  pose proof (times_nonneg DiffeoImage_getdiffeo (invoked p τ)).
  pose proof (times_nonneg DiffeoImage_interpolate_image (invoked p τ)).
  pose proof (times_nonneg DiffeoImageDir_save (invoked p τ)).
  pose proof (Z.mul_div_le 5 N ltac:(lia)).
  pose proof (Z.mul_div_le 25 N ltac:(lia)).
  pose proof (Z.mul_div_le 65 N ltac:(lia)).
  pose proof (Z.div_pos 5 N ltac:(lia) ltac:(lia)).
  pose proof (Z.div_pos 25 N ltac:(lia) ltac:(lia)).
  pose proof (Z.div_pos 65 N ltac:(lia) ltac:(lia)).
  nia.
Qed.

(** X6. With more than 65 files the per-item stages do not move the
    bar: in a first run the accumulator advances only when [save] is
    invoked, by 5 each time. *)
Theorem X6_many_files_move_only_at_save `{!External}
    (N : Z) (σ ρ τ : State) (p : pipeline) :
  65 < N →
  (∀ s, plain (class_attr σ s) = true) →
  install N σ = (Ok (), ρ) →
  class_attr τ = class_attr ρ →
  current_progress (run_pipeline p τ).2
  = current_progress τ + 5 * times DiffeoImageDir_save (invoked p τ).
Proof.
  intros HN Hplain Hrun Hslots.
  rewrite (run_pipeline_accounting N (class_attr ρ) p
             (install_plain_progress N σ ρ ltac:(lia) Hplain Hrun) τ Hslots).
  rewrite total_by_slot, !floor_quotient_files by lia.
  rewrite (Z.div_small 5 N), (Z.div_small 25 N), (Z.div_small 65 N) by lia.
  lia.
Qed.

(** The theorem of X5 on a run on two files. *)
Lemma X5_first_run_stays_within_the_bar_witness :
  let W := demo RaiseKeyError in
  let ρ := (install 2 initial_state).2 in
  let p := @run_diffeomorph W ["a.png"; "b.png"] "out" 80 20 false true in
  current_progress ρ ≤ current_progress (@run_pipeline W p ρ).2
                     ≤ current_progress ρ + 100.
Proof.
  intros W ρ p.
  apply (X5_first_run_stays_within_the_bar (H := W) 2 initial_state ρ ρ p).
  - lia.
  - intros s. reflexivity.
  - vm_compute. reflexivity.
  - reflexivity.
  - vm_compute. discriminate.
  - vm_compute. discriminate.
  - vm_compute. discriminate.
  - vm_compute. discriminate.
Defined.

(** The theorem of X6 on an install for 66 files. *)
Lemma X6_many_files_move_only_at_save_witness :
  let W := demo RaiseKeyError in
  let ρ := (install 66 initial_state).2 in
  let p := @run_diffeomorph W ["a.png"; "b.png"] "out" 80 20 false true in
  current_progress (@run_pipeline W p ρ).2
  = current_progress ρ + 5 * times DiffeoImageDir_save (@invoked W p ρ).
Proof.
  intros W ρ p.
  apply (X6_many_files_move_only_at_save (H := W) 66 initial_state ρ ρ p).
  - lia.
  - intros s. reflexivity.
  - vm_compute. reflexivity.
  - reflexivity.
Defined.

(** X7. Emptying a number field ends the program: when the event of
    [-MAXDISTORTION-] or [-NSTEPS-] arrives with that field empty, the
    test of its last character raises [IndexError]; nothing catches it,
    so the loop ends there, with no update made and no later event
    read. *)
Theorem X7_emptied_number_field_ends_the_loop `{!External}
    (ev : event) (values : Values) (rest : list (event * Values))
    (σ : State) :
  (ev = Key "-MAXDISTORTION-" ∧ MAXDISTORTION values = "") ∨
  (ev = Key "-NSTEPS-" ∧ NSTEPS values = "") →
  event_loop ((ev, values) :: rest) σ
  = (Raise IndexError, set_window (typed values (window σ)) σ).
Proof.
  intros [[-> Hempty] | [-> Hempty]]; cbn [event_loop];
    unfold loop_body, bind, modify; simpl decide; cbn iota;
    unfold only_digits; rewrite Hempty; reflexivity.
Qed.

(** The theorem of X7 on the [-NSTEPS-] field emptied, with a run
    request behind it that is never read. *)
Lemma X7_emptied_number_field_ends_the_loop_witness :
  let W := demo RaiseKeyError in
  let values :=
    {| INPUTS := "a.png"; OUTPUT := "out"; MAXDISTORTION := "80";
       NSTEPS := ""; SAVE_STEPS := false; NO_UPSCALING := false |} in
  @event_loop W [(Key "-NSTEPS-", values); (Key "Run", two_files)]
    initial_state
  = (Raise IndexError,
     set_window (typed values (window initial_state)) initial_state).
Proof.
  intros W values.
  apply (X7_emptied_number_field_ends_the_loop (H := W)).
  right. split; reflexivity.
Defined.

(** X8. The digit filter looks at the last character only: on a field
    that reads [p] followed by [c], it leaves the field as it is when
    [c] is a digit and cuts it back to [p] otherwise, so the field is
    all digits afterwards exactly when [p] is; a character that is not
    a digit and not the last one stays. *)
Theorem X8_digit_filter_checks_last_character `{!External}
    (key p : string) (c : ascii) (e : Element) (σ : State) :
  window σ !! key = Some e →
  value e = snoc_char p c →
  ∃ σ' e',
    only_digits key (snoc_char p c) σ = (Ok (), σ') ∧
    window σ' !! key = Some e' ∧
    value e' = (if is_digit c then snoc_char p c else p) ∧
    all_digits (value e') = all_digits p.
Proof.
  intros He Hv. unfold only_digits. rewrite last_char_snoc.
  destruct (is_digit c) eqn:Hc.
  - exists σ, e. repeat split; try done.
    by rewrite Hv, all_digits_snoc, Hc, andb_true_r.
  - rewrite (window_update_present _ _ _ _ He). eexists _, _.
    split; [reflexivity|]. simpl. rewrite lookup_insert_eq.
    split; [reflexivity|]. simpl. by rewrite drop_last_snoc.
Qed.

(** The theorem of X8 on the default of [-NSTEPS-] with a letter typed
    behind it. *)
Lemma X8_digit_filter_checks_last_character_witness :
  let W := demo RaiseKeyError in
  let values :=
    {| INPUTS := ""; OUTPUT := ""; MAXDISTORTION := "80";
       NSTEPS := "20x"; SAVE_STEPS := false; NO_UPSCALING := false |} in
  ∃ σ' e',
    @only_digits W "-NSTEPS-" "20x" (first_read values) = (Ok (), σ') ∧
    window σ' !! "-NSTEPS-" = Some e' ∧
    value e' = "20" ∧
    all_digits (value e') = true.
Proof.
  intros W values.
  apply (X8_digit_filter_checks_last_character (H := W) "-NSTEPS-" "20"
           "x"%char (element "20x" true) (first_read values)).
  - vm_compute. reflexivity.
  - reflexivity.
Defined.

(** X9. A number that [int] refuses stops the run half-way: with both
    path fields filled and [-MAXDISTORTION-] or [-NSTEPS-] unreadable,
    the handler raises [ValueError] after it has cleared the error text
    and shown the bar and the label; they stay visible, nothing is
    installed in the stage slots, and neither the teardown nor the
    reset runs. *)
Theorem X9_unreadable_number_stops_the_run `{!External}
    (values : Values) (σ : State) :
  INPUTS values ≠ "" →
  OUTPUT values ≠ "" →
  is_Some (window σ !! "-ERROR-") →
  is_Some (window σ !! "-PBAR-") →
  is_Some (window σ !! "-PBARLABEL-") →
  int (MAXDISTORTION values) = None ∨ int (NSTEPS values) = None →
  ∃ σ',
    on_run values σ = (Raise ValueError, σ') ∧
    visible <$> window σ' !! "-PBAR-" = Some true ∧
    visible <$> window σ' !! "-PBARLABEL-" = Some true ∧
    class_attr σ' = class_attr σ ∧
    allocated σ' = allocated σ ∧
    current_progress σ' = current_progress σ ∧
    trace σ' = trace σ ++ [EPrint None;
                           EUpdate "-ERROR-" (upd_value "");
                           EUpdate "-PBAR-" (upd_count_visible 0 true);
                           EUpdate "-PBARLABEL-" (upd_visible true)].
Proof.
  intros Hi Ho He Hp Hl Hint.
  destruct (prepare_unreadable values (emit (EPrint None) σ) He Hp Hl Hint)
    as (ρ & Hprep & Hca & Hal & _ & Hcp & Htr).
  pose proof (prepare_window values (emit (EPrint None) σ) _ _ He Hp Hl Hprep)
    as Hw.
  simpl in Hw.
  exists ρ. rewrite on_run_valid by done.
  unfold bind at 1. rewrite print_debug_run.
  unfold bind at 1. rewrite Hprep.
  split; [reflexivity|]. rewrite Hw, Hca, Hal, Hcp, Htr.
  destruct Hp as [eb Hb], Hl as [el Hel].
  repeat split; try done.
  - rewrite lookup_alter_ne by done. rewrite lookup_alter_eq.
    rewrite lookup_alter_ne by done. by rewrite Hb.
  - rewrite lookup_alter_eq. rewrite !lookup_alter_ne by done. by rewrite Hel.
  - simpl. by rewrite <- app_assoc.
Qed.

(** The theorem of X9 on a request with [a1] for the first number. *)
Lemma X9_unreadable_number_stops_the_run_witness :
  let W := demo RaiseKeyError in
  ∃ σ',
    @on_run W bad_number (first_read bad_number) = (Raise ValueError, σ') ∧
    visible <$> window σ' !! "-PBAR-" = Some true ∧
    class_attr σ' = StageFunction ∧
    current_progress σ' = 0.
Proof.
  intros W.
  assert (H1 : INPUTS bad_number ≠ "") by (vm_compute; discriminate).
  assert (H2 : OUTPUT bad_number ≠ "") by (vm_compute; discriminate).
  assert (H3 : is_Some (window (first_read bad_number) !! "-ERROR-"))
    by (vm_compute; eauto).
  assert (H4 : is_Some (window (first_read bad_number) !! "-PBAR-"))
    by (vm_compute; eauto).
  assert (H5 : is_Some (window (first_read bad_number) !! "-PBARLABEL-"))
    by (vm_compute; eauto).
  assert (H6 : @int W (MAXDISTORTION bad_number) = None
               ∨ @int W (NSTEPS bad_number) = None)
    by (left; vm_compute; reflexivity).
  destruct (X9_unreadable_number_stops_the_run (H := W) bad_number
              (first_read bad_number) H1 H2 H3 H4 H5 H6)
    as (σ' & Hrun & Hvis & _ & Hca & _ & Hcp & _).
  exists σ'. split; [exact Hrun|]. split; [exact Hvis|].
  split; [exact Hca|]. exact Hcp.
Defined.

(** X10. The number of files is the number of semicolons in the input
    field plus one, empty parts included: with both numbers readable,
    the steps before the [try] statement end normally for every input
    text (the division by the number of files cannot fail), pass on that
    many paths, and leave in each slot they wrap a ProgressUpdater whose
    increment is the slot's share for that many files. *)
Theorem X10_files_are_semicolons_plus_one `{!External}
    (values : Values) (σ : State) (maxdistortion nsteps : Z) :
  is_Some (window σ !! "-ERROR-") →
  is_Some (window σ !! "-PBAR-") →
  is_Some (window σ !! "-PBARLABEL-") →
  int (MAXDISTORTION values) = Some maxdistortion →
  int (NSTEPS values) = Some nsteps →
  let N := Z.of_nat (S (occurrences ";"%char (INPUTS values))) in
  ∃ inputs ρ,
    prepare values σ
    = (Ok (inputs, OUTPUT values, maxdistortion, nsteps, SAVE_STEPS values,
           negb (NO_UPSCALING values)), ρ) ∧
    Z.of_nat (length inputs) = N ∧
    ∀ s, s ≠ DiffeoImageDir_init →
         ∃ o self func, class_attr ρ s = Updater o self func ∧
                        increment_value self = slot_increment N s.
Proof.
  intros He Hp Hl Hmd Hns N.
  destruct (prepare_valid values σ _ _ He Hp Hl Hmd Hns)
    as (σ3 & ρ & Hprep & Hinst & _).
  rewrite split_occurrences in Hinst. fold N in Hinst.
  exists (split ";"%char (INPUTS values)), ρ.
  split; [exact Hprep|]. split; [by rewrite split_occurrences|].
  intros s Hs.
  destruct (install_slot N σ3 ρ s ltac:(lia) Hs Hinst)
    as (o & self & Hslot & _ & _ & _ & Hinc & _).
  by exists o, self, (getattr_class (class_attr σ3 s)).
Qed.

(** The theorem of X10 on an input text with a semicolon at its end:
    two files, the second with the empty path. *)
Lemma X10_files_are_semicolons_plus_one_witness :
  let W := demo RaiseKeyError in
  let values :=
    {| INPUTS := "a.png;"; OUTPUT := "out"; MAXDISTORTION := "80";
       NSTEPS := "20"; SAVE_STEPS := false; NO_UPSCALING := false |} in
  ∃ inputs ρ,
    @prepare W values (first_read values)
    = (Ok (inputs, "out", 80, 20, false, true), ρ) ∧
    Z.of_nat (length inputs) = 2 ∧
    ∀ s, s ≠ DiffeoImageDir_init →
         ∃ o self func, class_attr ρ s = Updater o self func ∧
                        increment_value self = slot_increment 2 s.
Proof.
  intros W values.
  apply (X10_files_are_semicolons_plus_one (H := W) values
           (first_read values) 80 20).
  - vm_compute. eauto.
  - vm_compute. eauto.
  - vm_compute. eauto.
  - vm_compute. reflexivity.
  - vm_compute. reflexivity.
Defined.

(** X11. The instance is bound as for a plain function: a method call
    on a slot that holds a ProgressUpdater around a function, with
    keywords that [print] accepts, is the object's bookkeeping and
    [print] followed by the very method call the slot would make with
    the function itself in it, so the function receives the instance
    first and the arguments and keywords unchanged. *)
Theorem X11_method_call_binds_the_instance `{!External}
    (o : nat) (self : attrs) (f : slot) (instance : pyval)
    (args : list pyval) (kw : kwargs) (σ : State) (n : Z)
    (file : option nat) :
  is_Some (window σ !! pbar_key self) →
  is_Some (window σ !! label_key self) →
  (runs_each_file self = true → file_count σ !! o = Some n) →
  print_target kw = Ok file →
  ∃ σm,
    call_method (Updater o self (StageFunction f)) instance args kw σ
    = call_method (StageFunction f) instance args kw σm ∧
    call_method (StageFunction f) instance args kw σm
    = (stage f (instance :: args) kw (length (trace σ) + 4),
       emit (ECall f (instance :: args) kw) σm) ∧
    trace σm
    = trace σ ++ bookkeeping self (current_progress σ) n ++ [EPrint file] ∧
    current_progress σm = current_progress σ + increment_value self.
Proof.
  intros Hp Hl Hn Hprint.
  destruct (call_instance_ok o self (StageFunction f) (instance :: args) kw
              σ n file Hp Hl Hn Hprint)
    as (σm & Hcall & Htr & Hcp & _).
  exists σm. split; [exact Hcall|]. split; [|by split].
  simpl. unfold bind, gets, modify, lift. simpl. do 2 f_equal.
  rewrite Htr, !length_app. simpl. lia.
Qed.

(** The theorem of X11 on [_getdiffeo] as the install for two files
    leaves it, called on an image object. *)
Lemma X11_method_call_binds_the_instance_witness :
  let W := demo RaiseKeyError in
  let σ := (install 2 initial_state).2 in
  let self :=
    Attrs "-PBAR-" "-PBARLABEL-" "Generating diffeomorphic flow field..."
      12 true in
  ∃ σm,
    @call_method W (Updater 1 self (StageFunction DiffeoImage_getdiffeo))
      (VObj 1) [] [] σ
    = @call_method W (StageFunction DiffeoImage_getdiffeo) (VObj 1) [] [] σm ∧
    trace σm = trace σ ++ bookkeeping self (current_progress σ) 1
                       ++ [EPrint None].
Proof.
  intros W σ self.
  destruct (X11_method_call_binds_the_instance (H := W) 1 self
              DiffeoImage_getdiffeo (VObj 1) [] [] σ 1 None)
    as (σm & Hcall & _ & Htr & _).
  - vm_compute. eauto.
  - vm_compute. eauto.
  - intros _. vm_compute. reflexivity.
  - reflexivity.
  - exists σm. split; [exact Hcall|exact Htr].
Defined.

(** X12. In the run after a teardown the stage functions get [None] for
    the instance. When a slot holds what the teardown leaves there, the
    partial object that the class lookup made of the earlier run's
    ProgressUpdater, the next install wraps that partial object, and a
    method call on the slot then does the bookkeeping of the new and of
    the old ProgressUpdater, advancing the accumulator and the bar by
    both increments, and enters the function once, with [None] in front
    of the instance; the label on display while the function runs is the
    old object's, with the counter the earlier run left. *)
Theorem X12_next_run_passes_None_for_the_instance `{!External}
    (N : Z) (ρ ρ' : State) (s : slot) (o1 : nat) (self1 : attrs) (f : slot)
    (instance : pyval) (args : list pyval) (n1 : Z) :
  N ≠ 0 →
  s ≠ DiffeoImageDir_init →
  class_attr ρ s = Partial (Updater o1 self1 (StageFunction f)) VNone →
  (o1 < allocated ρ)%nat →
  pbar_key self1 = "-PBAR-" →
  label_key self1 = "-PBARLABEL-" →
  (runs_each_file self1 = true → file_count ρ !! o1 = Some n1) →
  is_Some (window ρ !! "-PBAR-") →
  is_Some (window ρ !! "-PBARLABEL-") →
  install N ρ = (Ok (), ρ') →
  ∃ σ' t,
    call_method (class_attr ρ' s) instance args [] ρ'
    = (stage f (VNone :: instance :: args) [] (length (trace ρ') + 8), σ') ∧
    current_progress σ'
    = current_progress ρ' + slot_increment N s + increment_value self1 ∧
    trace σ' = trace ρ' ++ t ++ [ECall f (VNone :: instance :: args) []] ∧
    forallb ui_effect t = true ∧
    counts_shown "-PBAR-" t
    = [current_progress ρ' + slot_increment N s;
       current_progress ρ' + slot_increment N s + increment_value self1] ∧
    last (labels_shown "-PBARLABEL-" t) = Some (shown_label self1 n1).
Proof.
  intros HN Hs Hslot Ho1 Hp1 Hl1 Hn1 Hp Hl Hinst.
  destruct (install_slot N ρ ρ' s HN Hs Hinst)
    as (o2 & self2 & Hslot' & Ho2 & Hp2 & Hl2 & Hinc & Hn2 & Hold & Hw & _).
  rewrite Hslot in Hslot'. simpl in Hslot'. rewrite Hslot'.
  destruct (call_method_nested o1 o2 self1 self2 f instance args ρ' n1 1)
    as (σ' & Hcall & Hcp & Htr); try done.
  - lia.
  - by rewrite Hw.
  - by rewrite Hw.
  - intros Hmode. rewrite Hold by done. by apply Hn1.
  - eexists σ', _. split; [exact Hcall|]. rewrite <- Hinc.
    split; [exact Hcp|]. split; [exact Htr|].
    unfold bookkeeping. rewrite Hp1, Hl1, Hp2, Hl2.
    split; [reflexivity|]. split; reflexivity.
Qed.

(** The theorem of X12 on [_getdiffeo] in a second run on two files. *)
Lemma X12_next_run_passes_None_for_the_instance_witness :
  let W := demo RaiseKeyError in
  let ρ := (@on_run W two_files (first_read two_files)).2 in
  let ρ' := (install 2 ρ).2 in
  ∃ σ' t,
    @call_method W (class_attr ρ' DiffeoImage_getdiffeo) (VObj 1) [] [] ρ'
    = (@stage W DiffeoImage_getdiffeo [VNone; VObj 1] []
         (length (trace ρ') + 8), σ') ∧
    current_progress σ' = current_progress ρ' + 12 + 12 ∧
    trace σ'
    = trace ρ' ++ t ++ [ECall DiffeoImage_getdiffeo [VNone; VObj 1] []] ∧
    forallb ui_effect t = true ∧
    counts_shown "-PBAR-" t
    = [current_progress ρ' + 12; current_progress ρ' + 12 + 12] ∧
    last (labels_shown "-PBARLABEL-" t)
    = Some "File #3: Generating diffeomorphic flow field...".
Proof.
  intros W ρ ρ'.
  apply (X12_next_run_passes_None_for_the_instance (H := W) 2 ρ ρ'
           DiffeoImage_getdiffeo 1
           (Attrs "-PBAR-" "-PBARLABEL-"
              "Generating diffeomorphic flow field..." 12 true)
           DiffeoImage_getdiffeo (VObj 1) [] 3).
  - lia.
  - discriminate.
  - vm_compute. reflexivity.
  - vm_compute. lia.
  - reflexivity.
  - reflexivity.
  - intros _. vm_compute. reflexivity.
  - vm_compute. eauto.
  - vm_compute. eauto.
  - vm_compute. reflexivity.
Defined.

(** X13. Whenever the program waits for an event, the window is idle:
    after any sequence of events that the loop has gone through without
    an exception, starting from the window of the layout, the
    accumulator is 0, the bar is at 0 and hidden, the label is hidden,
    and the window has the elements of the layout, no more and no
    fewer. *)
Theorem X13_window_idle_between_events `{!External}
    (reads : list (event * Values)) (σ' : State) :
  event_loop reads initial_state = (Ok (), σ') →
  idle σ'.
Proof.
  apply event_loop_idle. exact initial_state_idle.
Qed.

(** The theorem of X13 on a letter typed into [-NSTEPS-], a run on two
    files and a run request without inputs. *)
Lemma X13_window_idle_between_events_witness :
  let W := demo RaiseKeyError in
  let typing :=
    {| INPUTS := ""; OUTPUT := ""; MAXDISTORTION := "80";
       NSTEPS := "20x"; SAVE_STEPS := false; NO_UPSCALING := false |} in
  let reads :=
    [(Key "-NSTEPS-", typing); (Key "Run", two_files); (Key "Run", no_inputs)] in
  idle (@event_loop W reads initial_state).2.
Proof.
  intros W typing reads.
  apply (X13_window_idle_between_events (H := W) reads).
  vm_compute. reflexivity.
Defined.

(** X14. The handled missing-file failure, for every request and for
    every way the library treats a key that no element has: when the
    pipeline raises [FileNotFoundError] in a window without an element
    of key [-OUTPUTS-], the handler clears the input field and asks for
    the element of [-OUTPUTS-], never for the output field's own key.
    The key error is reported; the output field is emptied when the
    library answers with the element of [-OUTPUT-] and keeps its text
    otherwise. With a library that raises [KeyError] the handler ends
    with that [KeyError] and the error text stays empty; with any other
    library it ends normally with the message shown. Either way the
    teardown has run: accumulator 0, bar hidden. *)
Theorem X14_missing_file_asks_for_an_unknown_key `{!External}
    (values : Values) (σ : State) (maxdistortion nsteps : Z) :
  INPUTS values ≠ "" →
  OUTPUT values ≠ "" →
  int (MAXDISTORTION values) = Some maxdistortion →
  int (NSTEPS values) = Some nsteps →
  (∀ s, handler_keyed (class_attr σ s) = true) →
  is_Some (window σ !! "-ERROR-") →
  is_Some (window σ !! "-PBAR-") →
  is_Some (window σ !! "-PBARLABEL-") →
  is_Some (window σ !! "-INPUTS-") →
  is_Some (window σ !! "-OUTPUT-") →
  window σ !! "-OUTPUTS-" = None →
  pipeline_outcome values σ = Raise FileNotFoundError →
  ∃ σ',
    on_run values σ
    = (match find_element_missing "-OUTPUTS-" with
       | RaiseKeyError => Raise KeyError
       | _ => Ok ()
       end, σ') ∧
    EKeyError "-OUTPUTS-" ∈ trace σ' ∧
    value <$> window σ' !! "-INPUTS-" = Some "" ∧
    value <$> window σ' !! "-OUTPUT-"
    = (if redirects_to "-OUTPUT-" (find_element_missing "-OUTPUTS-")
       then Some "" else value <$> window σ !! "-OUTPUT-") ∧
    value <$> window σ' !! "-ERROR-"
    = Some (match find_element_missing "-OUTPUTS-" with
            | RaiseKeyError => ""
            | _ => "ERROR: One or more files not found"
            end) ∧
    current_progress σ' = 0 ∧
    visible <$> window σ' !! "-PBAR-" = Some false.
Proof.
  intros Hi Ho Hmd Hns Hkeyed He Hp Hl Hin Hfield Hnone Hout.
  destruct (valid_run_tried values σ _ _ Hi Ho Hmd Hns Hkeyed He Hp Hl)
    as (τ & Hrun & Hdom & Herr & Hrest).
  rewrite Hrun, Hout. clear Hrun. unfold try_finally.
  destruct (decide (FileNotFoundError = FileNotFoundError)); [|done].
  assert (Hinτ : is_Some (window τ !! "-INPUTS-"))
    by (eapply is_Some_dom; [exact Hdom|done]).
  assert (Heτ : is_Some (window τ !! "-ERROR-"))
    by (eapply is_Some_dom; [exact Hdom|done]).
  assert (Hpτ : is_Some (window τ !! "-PBAR-"))
    by (eapply is_Some_dom; [exact Hdom|done]).
  assert (Hlτ : is_Some (window τ !! "-PBARLABEL-"))
    by (eapply is_Some_dom; [exact Hdom|done]).
  assert (Hfτ : window τ !! "-OUTPUT-" = window σ !! "-OUTPUT-")
    by (by apply Hrest).
  assert (Hnoneτ : window τ !! "-OUTPUTS-" = None)
    by (rewrite Hrest by done; exact Hnone).
  destruct (on_file_not_found_window τ Hinτ Heτ Hnoneτ)
    as (σ2 & -> & Hw2 & Htr2).
  assert (Hp2 : is_Some (window σ2 !! "-PBAR-")).
  { rewrite Hw2. destruct (find_element_missing "-OUTPUTS-");
      by repeat apply lookup_alter_is_Some. }
  assert (Hl2 : is_Some (window σ2 !! "-PBARLABEL-")).
  { rewrite Hw2. destruct (find_element_missing "-OUTPUTS-");
      by repeat apply lookup_alter_is_Some. }
  destruct (teardown_window σ2 Hp2 Hl2) as (σ' & Htd & Hw' & Hcp').
  destruct (teardown_ok σ2 Hp2 Hl2) as (σ'' & Htd' & _ & Htr' & _).
  rewrite Htd in Htd'. simplify_eq. rewrite Htd.
  exists σ''. split; [by destruct (find_element_missing "-OUTPUTS-")|].
  split; [rewrite Htr'; apply elem_of_app; by left|].
  rewrite Hw'. destruct Hinτ as [ei Hei], Hp2 as [eb Hb], Heτ as [ee Hee].
  destruct Hfield as [eo Heo]. rewrite Heo in Hfτ.
  assert (Hin' : value <$> window σ2 !! "-INPUTS-" = Some "").
  { rewrite Hw2. destruct (find_element_missing "-OUTPUTS-") as [| |k].
    - by rewrite lookup_alter_eq, Hei.
    - rewrite lookup_alter_ne by done. by rewrite lookup_alter_eq, Hei.
    - rewrite lookup_alter_ne by done.
      destruct (decide (k = "-INPUTS-")) as [->|Hk].
      + by rewrite !lookup_alter_eq, Hei.
      + rewrite lookup_alter_ne by done. by rewrite lookup_alter_eq, Hei. }
  assert (Hout' : value <$> window σ2 !! "-OUTPUT-"
                  = (if redirects_to "-OUTPUT-"
                          (find_element_missing "-OUTPUTS-")
                     then Some "" else value <$> window σ !! "-OUTPUT-")).
  { rewrite Hw2, Heo.
    destruct (find_element_missing "-OUTPUTS-") as [| |k]; simpl.
    - rewrite lookup_alter_ne by done. by rewrite Hfτ.
    - rewrite !lookup_alter_ne by done. by rewrite Hfτ.
    - rewrite lookup_alter_ne by done.
      destruct (bool_decide (k = "-OUTPUT-")) eqn:Hk.
      + apply bool_decide_eq_true in Hk as ->.
        rewrite lookup_alter_eq. rewrite lookup_alter_ne by done.
        by rewrite Hfτ.
      + apply bool_decide_eq_false in Hk.
        rewrite !lookup_alter_ne by done. by rewrite Hfτ. }
  assert (Herr' : value <$> window σ2 !! "-ERROR-"
                  = Some (match find_element_missing "-OUTPUTS-" with
                          | RaiseKeyError => ""
                          | _ => "ERROR: One or more files not found"
                          end)).
  { rewrite Hw2.
    destruct (find_element_missing "-OUTPUTS-") as [| |k].
    - rewrite lookup_alter_ne by done. exact Herr.
    - rewrite lookup_alter_eq. rewrite lookup_alter_ne by done.
      by rewrite Hee.
    - rewrite lookup_alter_eq.
      destruct (decide (k = "-ERROR-")) as [->|Hk].
      + rewrite lookup_alter_eq. rewrite lookup_alter_ne by done.
        by rewrite Hee.
      + rewrite !lookup_alter_ne by done. by rewrite Hee. }
  rewrite !lookup_alter_ne by done.
  split; [exact Hin'|]. split; [exact Hout'|]. split; [exact Herr'|].
  split; [exact Hcp'|].
  rewrite lookup_alter_eq. by rewrite Hb.
Qed.

(** The theorem of X14 on the request with one missing file, for a
    library that answers the unknown key with the element of the
    closest key, [-OUTPUT-]: the key error is reported and the output
    field is emptied. *)
Lemma X14_missing_file_asks_for_an_unknown_key_witness :
  let W := demo (ClosestKey "-OUTPUT-") in
  ∃ σ',
    @on_run W one_missing (first_read one_missing) = (Ok (), σ') ∧
    EKeyError "-OUTPUTS-" ∈ trace σ' ∧
    value <$> window σ' !! "-INPUTS-" = Some "" ∧
    value <$> window σ' !! "-OUTPUT-" = Some "" ∧
    value <$> window σ' !! "-ERROR-"
    = Some "ERROR: One or more files not found".
Proof.
  intros W.
  assert (H1 : INPUTS one_missing ≠ "") by (vm_compute; discriminate).
  assert (H2 : OUTPUT one_missing ≠ "") by (vm_compute; discriminate).
  assert (H3 : @int W (MAXDISTORTION one_missing) = Some 80)
    by (vm_compute; reflexivity).
  assert (H4 : @int W (NSTEPS one_missing) = Some 20)
    by (vm_compute; reflexivity).
  assert (H5 : ∀ s, handler_keyed (class_attr (first_read one_missing) s)
                    = true) by (intros s; reflexivity).
  assert (H6 : is_Some (window (first_read one_missing) !! "-ERROR-"))
    by (vm_compute; eauto).
  assert (H7 : is_Some (window (first_read one_missing) !! "-PBAR-"))
    by (vm_compute; eauto).
  assert (H8 : is_Some (window (first_read one_missing) !! "-PBARLABEL-"))
    by (vm_compute; eauto).
  assert (H9 : is_Some (window (first_read one_missing) !! "-INPUTS-"))
    by (vm_compute; eauto).
  assert (H10 : is_Some (window (first_read one_missing) !! "-OUTPUT-"))
    by (vm_compute; eauto).
  assert (H11 : window (first_read one_missing) !! "-OUTPUTS-" = None)
    by (vm_compute; reflexivity).
  assert (H12 : @pipeline_outcome W one_missing (first_read one_missing)
                = Raise FileNotFoundError) by (vm_compute; reflexivity).
  destruct (X14_missing_file_asks_for_an_unknown_key (H := W) one_missing
              (first_read one_missing) 80 20
              H1 H2 H3 H4 H5 H6 H7 H8 H9 H10 H11 H12)
    as (σ' & Hrun & Hrep & Hin & Hout & Herr & _).
  exists σ'. split; [exact Hrun|]. split; [exact Hrep|].
  split; [exact Hin|]. split; [exact Hout|exact Herr].
Defined.
